(** * EasyMap backend proxy (server.js): model and verified properties

    The development embeds the decision logic of [server.js]: the input
    classifier [isCoordinates], the coordinate parser [parseCoordinates],
    the geocoding client [geocodePlace] and the Express handlers for
    [/geocode], [/route], [/save-route] and [/routes].

    JavaScript strings are sequences of UTF-16 code units, numbers are IEEE
    binary64 values, exceptions are explicit results and every outbound call
    ([fetch], the MongoDB driver) is an event answered by the environment. *)

From Stdlib Require Import ZArith NArith List Bool Lia String Ascii SpecFloat.
Import ListNotations.



(* ================================================================== *)
(** ** Strings *)
(* ================================================================== *)

Module Str.

(** A JavaScript string: a list of UTF-16 code units. *)
Definition code_unit := N.
Definition jsstring := list code_unit.

(** A literal of the source text, code unit by code unit. *)
Definition js (s : string) : jsstring :=
  List.map N_of_ascii (list_ascii_of_string s).

Arguments js s%_string : simpl never.

Definition eqb (a b : jsstring) : bool :=
  if list_eq_dec N.eq_dec a b then true else false.

Definition is_digit (c : code_unit) : bool :=
  ((48 <=? c) && (c <=? 57))%N.

(** ECMAScript WhiteSpace and LineTerminator code points, the set that
    [String.prototype.trim] and [parseFloat] strip. *)
Definition is_white_space (c : code_unit) : bool :=
  (((9 <=? c) && (c <=? 13))
   || (c =? 32) || (c =? 160) || (c =? 5760)
   || ((8192 <=? c) && (c <=? 8202))
   || (c =? 8232) || (c =? 8233) || (c =? 8239) || (c =? 8287)
   || (c =? 12288) || (c =? 65279))%N.

Fixpoint trimStart (s : jsstring) : jsstring :=
  match s with
  | [] => []
  | c :: s' => if is_white_space c then trimStart s' else s
  end.

Definition trimEnd (s : jsstring) : jsstring :=
  rev (trimStart (rev s)).

(** [s.trim()] *)
Definition trim (s : jsstring) : jsstring :=
  trimEnd (trimStart s).

(** [s.split(sep)] for a one-character separator: always at least one
    part, the empty string splits into one empty part. *)
Fixpoint split (sep : code_unit) (s : jsstring) : list jsstring :=
  match s with
  | [] => [[]]
  | c :: s' =>
      if (c =? sep)%N then [] :: split sep s'
      else match split sep s' with
           | p :: ps => (c :: p) :: ps
           | [] => [[c]]
           end
  end.

(** [a] occurs in [b] as a contiguous substring. *)
Definition contains (b a : jsstring) : Prop :=
  exists pre post, b = pre ++ a ++ post.

(** [b.startsWith(a)], returning the rest. *)
Fixpoint strip_prefix (a b : jsstring) : option jsstring :=
  match a, b with
  | [], _ => Some b
  | x :: a', y :: b' => if (x =? y)%N then strip_prefix a' b' else None
  | _ :: _, [] => None
  end.

End Str.

Import Str.

(* ================================================================== *)
(** ** The regular expression of the classifier *)
(* ================================================================== *)

Module Regex.

(** The fragment of the regular-expression syntax that [coordPattern]
    uses: a sequence of quantified one-character atoms between [^] and
    [$] (no flags, so both anchors are those of the whole input). *)
Inductive atom : Type :=
| Lit (c : code_unit)      (* a literal character, [\.] included *)
| Digit.                   (* [\d], the ASCII digits *)

Inductive quantifier : Type :=
| Once
| Optional                 (* [?] *)
| ZeroOrMore               (* [*] *)
| OneOrMore.               (* [+] *)

Definition regex := list (atom * quantifier).

Definition atom_matches (a : atom) (c : code_unit) : bool :=
  match a with
  | Lit x => (c =? x)%N
  | Digit => is_digit c
  end.

(** Consume one character matched by [a], then continue with [k]. *)
Definition step (a : atom) (k : jsstring -> bool) (s : jsstring) : bool :=
  match s with
  | c :: s' => if atom_matches a c then k s' else false
  | [] => false
  end.

(** Greedy iteration of [a] with backtracking into the continuation. *)
Fixpoint star (a : atom) (k : jsstring -> bool) (s : jsstring) : bool :=
  match s with
  | c :: s' =>
      if atom_matches a c then (if star a k s' then true else k s) else k s
  | [] => k s
  end.

(** Backtracking matcher for an anchored pattern: the quantifiers are
    greedy, and the end of the pattern must meet the end of the input. *)
Fixpoint matches (r : regex) : jsstring -> bool :=
  match r with
  | [] => fun s => match s with [] => true | _ :: _ => false end
  | (a, q) :: r' =>
      let k := matches r' in
      match q with
      | Once => step a k
      | Optional => fun s => if step a k s then true else k s
      | ZeroOrMore => star a k
      | OneOrMore => step a (star a k)
      end
  end.

(** [RegExp.prototype.test] *)
Definition test (r : regex) (s : jsstring) : bool := matches r s.

End Regex.

(** [/^-?\d+\.?\d*,-?\d+\.?\d*$/] *)
Definition coordPattern : Regex.regex :=
  [ (Regex.Lit 45, Regex.Optional); (Regex.Digit, Regex.OneOrMore);
    (Regex.Lit 46, Regex.Optional); (Regex.Digit, Regex.ZeroOrMore);
    (Regex.Lit 44, Regex.Once);
    (Regex.Lit 45, Regex.Optional); (Regex.Digit, Regex.OneOrMore);
    (Regex.Lit 46, Regex.Optional); (Regex.Digit, Regex.ZeroOrMore) ]%N.

(* ================================================================== *)
(** ** Numbers *)
(* ================================================================== *)

Module Num.

Local Open Scope Z_scope.

(** A JavaScript Number is an IEEE 754 binary64 value: [S754_finite s m e]
    is [(-1)^s * m * 2^e]. *)
Definition number := spec_float.

Definition NaN : number := S754_nan.

(** [Number.isFinite] on a Number. *)
Definition isFinite (x : number) : bool :=
  match x with
  | S754_zero _ | S754_finite _ _ _ => true
  | S754_infinity _ | S754_nan => false
  end.

Definition is_zero (x : number) : bool :=
  match x with S754_zero _ => true | _ => false end.

(** Every real at or above [2^1024 - 2^970], the midpoint between the
    largest binary64 value and [2^1024], rounds to infinity. *)
Definition overflow_threshold : Z := 2 ^ 1024 - 2 ^ 970.

(** The integer nearest to [num / den], ties to even ([0 <= num], [0 < den]). *)
Definition round_nearest_even (num den : Z) : Z :=
  let q := num / den in
  match 2 * (num mod den) ?= den with
  | Lt => q
  | Gt => q + 1
  | Eq => if Z.even q then q else q + 1
  end.

(** [2^e <= num / den] *)
Definition pow2_le (e num den : Z) : bool :=
  if 0 <=? e then den * 2 ^ e <=? num else den <=? num * 2 ^ (- e).

(** [floor (log2 (num / den))] for positive [num] and [den]. *)
Definition binade (num den : Z) : Z :=
  let e0 := Z.log2 num - Z.log2 den in
  if pow2_le e0 num den then e0 else e0 - 1.

(** The Number value for the real [(-1)^neg * num / den]: round to nearest,
    ties to even, with gradual underflow and overflow to infinity. *)
Definition round (neg : bool) (num den : Z) : number :=
  if num <=? 0 then S754_zero neg
  else if den * overflow_threshold <=? num then S754_infinity neg
  else
    let e := Z.max (binade num den - 52) (-1074) in
    let m := if 0 <=? e then round_nearest_even num (den * 2 ^ e)
             else round_nearest_even (num * 2 ^ (- e)) den in
    match m with
    | Zpos p =>
        if m =? 2 ^ 53 then S754_finite neg (2 ^ 52)%positive (e + 1)
        else S754_finite neg p e
    | _ => S754_zero neg
    end.

(** The Number value for [(-1)^neg * mant * 10^ex]. *)
Definition decimal (neg : bool) (mant ex : Z) : number :=
  if 0 <=? ex then round neg (mant * 10 ^ ex) 1
  else round neg mant (10 ^ (- ex)).

Definition of_Z (z : Z) : number := round (z <? 0) (Z.abs z) 1.

(** *** [parseFloat] *)

Definition digit_value (c : code_unit) : Z := Z.of_N (c - 48).

Definition digits_value (ds : jsstring) : Z :=
  fold_left (fun acc c => 10 * acc + digit_value c) ds 0.

(** The longest prefix of digits, and the rest. *)
Fixpoint span_digits (s : jsstring) : jsstring * jsstring :=
  match s with
  | c :: s' =>
      if is_digit c then let (ds, r) := span_digits s' in (c :: ds, r)
      else ([], s)
  | [] => ([], [])
  end.

(** A sign character, if there is one. *)
Definition span_sign (s : jsstring) : bool * jsstring :=
  match s with
  | c :: r =>
      if (c =? 45)%N then (true, r)
      else if (c =? 43)%N then (false, r)
      else (false, s)
  | [] => (false, s)
  end.

(** ExponentPart: [e] or [E], an optional sign and at least one digit;
    anything else is not part of the literal and counts as no exponent. *)
Definition exponent_part (s : jsstring) : Z :=
  match s with
  | c :: r =>
      if ((c =? 101) || (c =? 69))%N then
        let (neg, r') := span_sign r in
        match fst (span_digits r') with
        | [] => 0
        | ds => if neg then - digits_value ds else digits_value ds
        end
      else 0
  | [] => 0
  end.

(** [parseFloat(string)]: leading white space is skipped, the longest
    prefix that is a StrDecimalLiteral is read, and [NaN] is returned
    when there is none. *)
Definition parseFloat (input : jsstring) : number :=
  let (neg, s1) := span_sign (trimStart input) in
  match strip_prefix (js "Infinity") s1 with
  | Some _ => S754_infinity neg
  | None =>
      let (ip, s2) := span_digits s1 in
      let (fp, s3) :=
        match s2 with
        | c :: r => if (c =? 46)%N then span_digits r else ([], s2)
        | [] => ([], s2)
        end in
      match ip ++ fp with
      | [] => NaN
      | ds =>
          decimal neg (digits_value ds)
                  (exponent_part s3 - Z.of_nat (List.length fp))
      end
  end.

(** *** [Number::toString] (radix 10) *)

(** The exact value [m * 2^e] as a fraction. *)
Definition exact (m : positive) (e : Z) : Z * Z :=
  if 0 <=? e then (Zpos m * 2 ^ e, 1) else (Zpos m, 2 ^ (- e)).

(** [10^n <= num / den] *)
Definition pow10_le (n num den : Z) : bool :=
  if 0 <=? n then den * 10 ^ n <=? num else den <=? num * 10 ^ (- n).

(** The first [n], counting up from [n], with [num / den < 10^n]. *)
Fixpoint first_above (fuel : nat) (n num den : Z) : Z :=
  match fuel with
  | O => n
  | S fuel' =>
      if pow10_le n num den then first_above fuel' (n + 1) num den else n
  end.

(** The [n] with [10^(n-1) <= num / den < 10^n]; the search starts below
    it, from an estimate of the decimal logarithm. *)
Definition decimal_exponent (num den : Z) : Z :=
  first_above 4 ((binade num den * 30103) / 100000 - 1) num den.

Definition number_eqb (x y : number) : bool :=
  match x, y with
  | S754_zero a, S754_zero b => Bool.eqb a b
  | S754_infinity a, S754_infinity b => Bool.eqb a b
  | S754_finite a m e, S754_finite b m' e' =>
      Bool.eqb a b && (m =? m')%positive && (e =? e')
  | _, _ => false
  end.

(** The digits [s] (there are [k] of them) and the exponent [n] such that
    [s * 10^(n-k)] rounds to [m * 2^e], with the fewest digits that do,
    taking the closest to the exact value when two candidates qualify. *)
Fixpoint shortest_from (fuel : nat) (k n0 : Z) (m : positive) (e : Z)
  : Z * Z * Z :=
  let (num, den) := exact m e in
  let '(snum, sden) :=
    if 0 <=? n0 - k then (num, den * 10 ^ (n0 - k))
    else (num * 10 ^ (k - n0), den) in
  let lo := snum / sden in
  let hi := lo + 1 in
  let ok c := number_eqb (decimal false c (n0 - k)) (S754_finite false m e) in
  let stop_at c :=
    if c =? 10 ^ k then (10 ^ (k - 1), n0 + 1, k) else (c, n0, k) in
  match fuel with
  | O => stop_at lo
  | S fuel' =>
      match ok lo, ok hi with
      | true, true =>
          match 2 * (snum mod sden) ?= sden with
          | Lt => stop_at lo
          | Gt => stop_at hi
          | Eq => if Z.even lo then stop_at lo else stop_at hi
          end
      | true, false => stop_at lo
      | false, true => stop_at hi
      | false, false => shortest_from fuel' (k + 1) n0 m e
      end
  end.

Definition shortest_digits (m : positive) (e : Z) : Z * Z * Z :=
  let (num, den) := exact m e in
  shortest_from 20 1 (decimal_exponent num den) m e.

Definition digit_char (d : Z) : code_unit := (48 + Z.to_N d)%N.

(** The last [k] decimal digits of [s], most significant first. *)
Fixpoint digits_of (k : nat) (s : Z) (acc : jsstring) : jsstring :=
  match k with
  | O => acc
  | S k' => digits_of k' (s / 10) (digit_char (s mod 10) :: acc)
  end.

Fixpoint drop_zeros (s : jsstring) : jsstring :=
  match s with
  | c :: s' => if (c =? 48)%N then drop_zeros s' else s
  | [] => []
  end.

(** The decimal representation of a natural number. *)
Definition decimal_of_Z (z : Z) : jsstring :=
  match drop_zeros (digits_of (Z.to_nat (Z.log2 z) + 1) z []) with
  | [] => [48%N]
  | ds => ds
  end.

Definition zeros (n : Z) : jsstring := repeat 48%N (Z.to_nat n).

(** Steps 6 to 10 of Number::toString: the layout of the digits. *)
Definition layout (s n k : Z) : jsstring :=
  let ds := digits_of (Z.to_nat k) s [] in
  if (k <=? n) && (n <=? 21) then ds ++ zeros (n - k)
  else if (0 <? n) && (n <=? 21) then
    firstn (Z.to_nat n) ds ++ [46%N] ++ skipn (Z.to_nat n) ds
  else if (-6 <? n) && (n <=? 0) then
    [48%N; 46%N] ++ zeros (- n) ++ ds
  else
    let ex := (if n - 1 <? 0 then [45%N] else [43%N])
              ++ decimal_of_Z (Z.abs (n - 1)) in
    match ds with
    | d :: d' :: rest => [d; 46%N] ++ d' :: rest ++ [101%N] ++ ex
    | _ => ds ++ [101%N] ++ ex
    end.

(** [String(x)], which is what a template literal applies to a Number. *)
Definition toString (x : number) : jsstring :=
  match x with
  | S754_nan => js "NaN"
  | S754_zero _ => js "0"
  | S754_infinity neg => if neg then js "-Infinity" else js "Infinity"
  | S754_finite neg m e =>
      let '(s, n, k) := shortest_digits m e in
      (if neg then [45%N] else []) ++ layout s n k
  end.

End Num.
Import Num.

(* ================================================================== *)
(** ** Values, exceptions and the conversions the code relies on *)
(* ================================================================== *)

Module Value.

(** The values the handlers see: query parameters as the query parser
    delivers them (absent, a string, an array or a nested object), request
    bodies and the JSON documents of the two backends. *)
#[warnings="-register-all"]
Inductive value : Type :=
| VUndefined
| VNull
| VBool (b : bool)
| VNum (x : number)
| VStr (s : jsstring)
| VArr (items : list value)
| VObj (fields : list (jsstring * value)).

(** A thrown value: all of them are [Error] objects, of which the code
    reads only [message].  The messages of the errors that the runtime
    itself raises are those of V8. *)
Inductive exn : Type :=
| Error (message : jsstring)
| TypeError (message : jsstring)
| URIError (message : jsstring).

Definition message (e : exn) : jsstring :=
  match e with Error m | TypeError m | URIError m => m end.

(** The outcome of an expression that may throw. *)
Inductive result (A : Type) : Type :=
| Ok (a : A)
| Throw (e : exn).

Arguments Ok {A} a.
Arguments Throw {A} e.

Definition bind {A B} (r : result A) (f : A -> result B) : result B :=
  match r with Ok a => f a | Throw e => Throw e end.

(** The own property [key] of an object; of two equal keys in a JSON
    text the later one wins. *)
Fixpoint own (key : jsstring) (fields : list (jsstring * value))
  : option value :=
  match fields with
  | [] => None
  | (k, v) :: rest =>
      match own key rest with
      | Some v' => Some v'
      | None => if Str.eqb k key then Some v else None
      end
  end.

(** ToString.  An array joins its elements with commas, [null] and
    [undefined] elements giving the empty string; an ordinary object is
    ["[object Object]"] unless an own [toString] property, which can not
    be callable here, shadows the inherited method. *)
Fixpoint to_string (v : value) : result jsstring :=
  match v with
  | VUndefined => Ok (js "undefined")
  | VNull => Ok (js "null")
  | VBool b => Ok (if b then js "true" else js "false")
  | VNum x => Ok (Num.toString x)
  | VStr s => Ok s
  | VArr items =>
      (fix join (l : list value) : result jsstring :=
         match l with
         | [] => Ok []
         | x :: rest =>
             bind (match x with
                   | VUndefined | VNull => Ok []
                   | _ => to_string x
                   end)
               (fun sx =>
                  match rest with
                  | [] => Ok sx
                  | _ :: _ => bind (join rest) (fun sr => Ok (sx ++ [44%N] ++ sr))
                  end)
         end) items
  | VObj fields =>
      match own (js "toString") fields with
      | Some _ => Throw (TypeError (js "Cannot convert object to primitive value"))
      | None => Ok (js "[object Object]")
      end
  end.

(** ToBoolean, the test behind [!x] and [x || y]. *)
Definition truthy (v : value) : bool :=
  match v with
  | VUndefined | VNull => false
  | VBool b => b
  | VNum x => match x with S754_zero _ | S754_nan => false | _ => true end
  | VStr s => match s with [] => false | _ :: _ => true end
  | VArr _ | VObj _ => true
  end.

(** [v === 0] *)
Definition is_zero (v : value) : bool :=
  match v with VNum x => Num.is_zero x | _ => false end.

(** The property read [v.key] (or [v[0]] for the key ["0"]), for the keys
    that [server.js] reads: [length] and [0] are own properties of strings
    and arrays, and no built-in prototype defines any of the other keys. *)
Definition get (v : value) (key : jsstring) : result value :=
  let no_properties (what : jsstring) :=
    Throw (TypeError (js "Cannot read properties of " ++ what
                      ++ js " (reading '" ++ key ++ js "')")) in
  match v with
  | VUndefined => no_properties (js "undefined")
  | VNull => no_properties (js "null")
  | VBool _ | VNum _ => Ok VUndefined
  | VStr s =>
      if Str.eqb key (js "length") then
        Ok (VNum (Num.of_Z (Z.of_nat (List.length s))))
      else if Str.eqb key (js "0") then
        Ok (match s with c :: _ => VStr [c] | [] => VUndefined end)
      else Ok VUndefined
  | VArr items =>
      if Str.eqb key (js "length") then
        Ok (VNum (Num.of_Z (Z.of_nat (List.length items))))
      else if Str.eqb key (js "0") then
        Ok (match items with x :: _ => x | [] => VUndefined end)
      else Ok VUndefined
  | VObj fields =>
      Ok (match own key fields with Some x => x | None => VUndefined end)
  end.

(** [parseFloat(v)]: the argument is converted to a string first. *)
Definition parseFloat (v : value) : result number :=
  bind (to_string v) (fun s => Ok (Num.parseFloat s)).

(** *** [encodeURIComponent] *)

Definition unreserved (c : code_unit) : bool :=
  (((65 <=? c) && (c <=? 90)) || ((97 <=? c) && (c <=? 122))
   || is_digit c
   || existsb (N.eqb c) (js "-_.!~*'()"))%N.

Definition hex_digit (d : N) : code_unit :=
  (if d <? 10 then 48 + d else 55 + d)%N.

Definition percent (byte : N) : jsstring :=
  [37; hex_digit (byte / 16); hex_digit (byte mod 16)]%N.

Definition utf8 (cp : N) : list N :=
  (if cp <? 128 then [cp]
   else if cp <? 2048 then [192 + cp / 64; 128 + cp mod 64]
   else if cp <? 65536 then
     [224 + cp / 4096; 128 + (cp / 64) mod 64; 128 + cp mod 64]
   else [240 + cp / 262144; 128 + (cp / 4096) mod 64;
         128 + (cp / 64) mod 64; 128 + cp mod 64])%N.

Definition escape (cp : N) : jsstring := flat_map percent (utf8 cp).

Definition is_high_surrogate (c : code_unit) : bool :=
  ((55296 <=? c) && (c <=? 56319))%N.

Definition is_low_surrogate (c : code_unit) : bool :=
  ((56320 <=? c) && (c <=? 57343))%N.

Definition URI_malformed : exn := URIError (js "URI malformed").

(** Every character outside the unreserved set is replaced by the
    percent-escapes of its UTF-8 encoding; a surrogate that is not part
    of a pair throws. *)
Fixpoint encodeURIComponent (s : jsstring) : result jsstring :=
  match s with
  | [] => Ok []
  | c :: s' =>
      if unreserved c then
        bind (encodeURIComponent s') (fun r => Ok (c :: r))
      else if is_low_surrogate c then Throw URI_malformed
      else if is_high_surrogate c then
        match s' with
        | d :: s'' =>
            if is_low_surrogate d then
              bind (encodeURIComponent s'')
                (fun r => Ok (escape ((c - 55296) * 1024 + (d - 56320) + 65536)%N
                              ++ r))
            else Throw URI_malformed
        | [] => Throw URI_malformed
        end
      else bind (encodeURIComponent s') (fun r => Ok (escape c ++ r))
  end.

End Value.

Import Value.

(* ================================================================== *)
(** ** Outbound calls and handler programs *)
(* ================================================================== *)

Module IO.

(** What [await fetch(...)] gives the handler: the promise rejects
    (transport failure), or there is a response, of which the code reads
    [ok] and the outcome of [await response.json()]. *)
Inductive fetched : Type :=
| Rejected (e : exn)
| Response (ok : bool) (json : result value).

(** The handle that [db.collection('routes')] returns. *)
Record collection : Type := { db_name : jsstring; coll_name : jsstring }.

(** The calls that leave the process, each with the type of its answer. *)
Inductive call : Type -> Type :=
| Fetch (url : jsstring) (user_agent : option jsstring) : call fetched
| Now : call value                                         (* [new Date()] *)
| InsertOne (c : collection) (doc : value) : call (result value)
    (* [await c.insertOne(doc)], answering [insertedId] *)
| FindToArray (c : collection) (sort_key : jsstring) (direction limit : Z)
    : call (result (list value)).
    (* [await c.find({}).sort({key: direction}).limit(limit).toArray()] *)

(** A handler body: it returns, or makes a call and goes on with the
    answer. *)
Inductive prog (A : Type) : Type :=
| Ret (a : A)
| Do {X : Type} (c : call X) (k : X -> prog A).

Arguments Ret {A} a.
Arguments Do {A X} c k.

Fixpoint pbind {A B} (m : prog A) (f : A -> prog B) : prog B :=
  match m with
  | Ret a => f a
  | Do c k => Do c (fun x => pbind (k x) f)
  end.

(** Code that may throw and may call out. *)
Definition io (A : Type) : Type := prog (result A).

Definition ret {A} (a : A) : io A := Ret (Ok a).
Definition throw {A} (e : exn) : io A := Ret (Throw e).
Definition lift {A} (r : result A) : io A := Ret r.

Definition iobind {A B} (m : io A) (f : A -> io B) : io B :=
  pbind m (fun r => match r with Ok a => f a | Throw e => Ret (Throw e) end).

(** [try { m } catch (e) { h e }] *)
Definition try_catch {A} (m : io A) (h : exn -> io A) : io A :=
  pbind m (fun r => match r with Ok a => Ret (Ok a) | Throw e => h e end).

(** [await fetch(url, {headers: {'User-Agent': ua}})] *)
Definition fetch (url : jsstring) (user_agent : option jsstring)
  : io (bool * result value) :=
  Do (Fetch url user_agent)
     (fun r => match r with
               | Rejected e => throw e
               | Response ok json => ret (ok, json)
               end).

(** One outbound call with its answer. *)
Inductive event : Type :=
| Event {X : Type} (c : call X) (answer : X).

(** The environment: it answers every call, and may change in doing so. *)
Definition environment (W : Type) : Type := forall X, call X -> W -> X * W.

(** Run a program against an environment: the result, the calls made in
    order, and the environment afterwards. *)
Fixpoint run {A W} (env : environment W) (m : prog A) (w : W)
  : A * list event * W :=
  match m with
  | Ret a => (a, [], w)
  | Do c k =>
      let (x, w1) := env _ c w in
      let '(a, t, w2) := run env (k x) w1 in
      (a, Event c x :: t, w2)
  end.

Definition outcome {A W} (env : environment W) (m : prog A) (w : W) : A :=
  fst (fst (run env m w)).

Definition trace {A W} (env : environment W) (m : prog A) (w : W)
  : list event :=
  snd (fst (run env m w)).

Definition state_after {A W} (env : environment W) (m : prog A) (w : W) : W :=
  snd (run env m w).

(** The URL and the client identifier of an HTTP request, for an event
    that is one. *)
Definition request_of (e : event) : option (jsstring * option jsstring) :=
  match e with
  | Event c _ =>
      match c with
      | Fetch url user_agent => Some (url, user_agent)
      | _ => None
      end
  end.

(** A program that makes no call. *)
Definition pure {A} (m : prog A) : Prop := exists a, m = Ret a.

(** A program that makes exactly the call [c]. *)
Definition calls_once {A X} (c : call X) (m : prog A) : Prop :=
  exists k, m = Do c k /\ forall x, pure (k x).

End IO.

Import IO.

Declare Scope io_scope.
Delimit Scope io_scope with io.
Notation "'let*' x ':=' m 'in' f" :=
  (iobind m (fun x => f))
  (at level 10, x pattern, m at level 100, f at level 200) : io_scope.

(* ================================================================== *)
(** ** server.js *)
(* ================================================================== *)

Module Server.

Local Open Scope io_scope.

Definition OSRM_BASE : jsstring :=
  js "https://router.project-osrm.org/route/v1/driving".

Definition NOMINATIM_BASE : jsstring :=
  js "https://nominatim.openstreetmap.org/search".

(** An HTTP response: the status and the value handed to [res.json]. *)
Record response : Type := { status : Z; body : value }.

(** [res.status(code).json({ error: msg })] *)
Definition error_response (code : Z) (msg : jsstring) : response :=
  {| status := code; body := VObj [(js "error", VStr msg)] |}.

(** *** The geocoding client *)

Record geocoded : Type :=
  { g_lat : number; g_lon : number; g_display_name : value }.

Definition quoted (s : jsstring) : jsstring := [34%N] ++ s ++ [34%N].

(** The client identifier sent to the geocoding service. *)
Definition USER_AGENT : jsstring := js "EasyMap/1.0".

(** The URL of line 33. *)
Definition geocode_url (placeName : value) : result jsstring :=
  bind (bind (to_string placeName) encodeURIComponent)
    (fun q => Ok (NOMINATIM_BASE ++ js "?q=" ++ q
                  ++ js "&format=json&limit=1&addressdetails=1")).

Definition geocodePlace (placeName : value) : io geocoded :=
  try_catch
    (let* url := lift (geocode_url placeName) in
     let* (ok, json) := fetch url (Some USER_AGENT) in
     if negb ok then throw (Error (js "Geocoding service error"))
     else
       let* results := lift json in
       let* none :=
         lift (if negb (truthy results) then Ok true
               else bind (get results (js "length"))
                      (fun n => Ok (is_zero n))) in
       if (none : bool) then
         let* name := lift (to_string placeName) in
         throw (Error (js "No location found for " ++ quoted name))
       else
         let* result := lift (get results (js "0")) in
         let* lat := lift (bind (get result (js "lat")) parseFloat) in
         let* lon := lift (bind (get result (js "lon")) parseFloat) in
         let* display_name := lift (get result (js "display_name")) in
         ret {| g_lat := lat; g_lon := lon; g_display_name := display_name |})
    (fun error =>
       let* name := lift (to_string placeName) in
       throw (Error (js "Geocoding failed for " ++ quoted name ++ js ": "
                     ++ message error))).

(** *** The input classifier and the coordinate parser *)

(** [input.trim()] exists on strings only. *)
Definition isCoordinates (input : value) : result bool :=
  match input with
  | VStr s => Ok (Regex.test coordPattern (trim s))
  | VUndefined =>
      Throw (TypeError
               (js "Cannot read properties of undefined (reading 'trim')"))
  | VNull =>
      Throw (TypeError (js "Cannot read properties of null (reading 'trim')"))
  | _ => Throw (TypeError (js "input.trim is not a function"))
  end.

Record coords : Type := { lat : number; lon : number }.

Definition InvalidCoordinateFormat : exn :=
  Error (js "Invalid coordinate format").

(** [parts[i]] *)
Definition part (parts : list number) (i : nat) : number := nth i parts NaN.

Definition parseCoordinates (coordStr : value) : result coords :=
  match coordStr with
  | VStr s =>
      let parts := List.map (fun p => Num.parseFloat (trim p)) (split 44%N s) in
      if negb (Nat.eqb (List.length parts) 2)
         || negb (forallb Num.isFinite parts)
      then Throw InvalidCoordinateFormat
      else Ok {| lat := part parts 0; lon := part parts 1 |}
  | VUndefined =>
      Throw (TypeError
               (js "Cannot read properties of undefined (reading 'split')"))
  | VNull =>
      Throw (TypeError (js "Cannot read properties of null (reading 'split')"))
  | _ => Throw (TypeError (js "coordStr.split is not a function"))
  end.

(** *** [GET /] *)

Definition root_handler : io response :=
  ret {| status := 200; body := VObj [(js "ok", VBool true)] |}.

(** *** [GET /geocode] *)

Definition geocode_handler (q : value) : io response :=
  try_catch
    (if negb (truthy q) then
       ret (error_response 400 (js "Query parameter " ++ quoted (js "q")
                                ++ js " is required"))
     else
       let* result := geocodePlace q in
       ret {| status := 200;
              body := VObj [(js "lat", VNum (g_lat result));
                            (js "lon", VNum (g_lon result));
                            (js "display_name", g_display_name result)] |})
    (fun err => ret (error_response 400 (message err))).

(** *** [GET /route] *)

(** The template literal [`${lon},${lat}`]. *)
Definition lon_lat (lon lat : number) : jsstring :=
  Num.toString lon ++ [44%N] ++ Num.toString lat.

(** Lines 99 to 105 for [start], and again lines 108 to 114 for [end]. *)
Definition resolve (input : value) : io jsstring :=
  let* is_coords := lift (isCoordinates input) in
  if (is_coords : bool) then
    let* coords := lift (parseCoordinates input) in
    ret (lon_lat (lon coords) (lat coords))
  else
    let* geocoded := geocodePlace input in
    ret (lon_lat (g_lon geocoded) (g_lat geocoded)).

(** The URL of line 117. *)
Definition route_url (startCoords endCoords : jsstring) : jsstring :=
  OSRM_BASE ++ js "/" ++ startCoords ++ js ";" ++ endCoords
  ++ js "?overview=full&geometries=geojson&alternatives=false&steps=false".

(** Lines 117 to 131, with the two coordinate strings resolved. *)
Definition request_route (startCoords endCoords : jsstring) : io response :=
  let* (ok, json) := fetch (route_url startCoords endCoords) None in
  if negb ok then ret (error_response 502 (js "Routing service error"))
  else
    let* j := lift json in
    let* routes := lift (get j (js "routes")) in
    let* none :=
      lift (if negb (truthy routes) then Ok true
            else bind (get routes (js "length"))
                   (fun n => Ok (negb (truthy n)))) in
    if (none : bool) then ret (error_response 404 (js "No route found"))
    else
      let* route := lift (get routes (js "0")) in
      let* distance := lift (get route (js "distance")) in
      let* duration := lift (get route (js "duration")) in
      let* geometry := lift (get route (js "geometry")) in
      ret {| status := 200;
             body := VObj [(js "distance_meters", distance);
                           (js "duration_seconds", duration);
                           (js "geometry", geometry);
                           (js "start_coords", VStr startCoords);
                           (js "end_coords", VStr endCoords)] |}.

(** [err.message || 'Server error'] *)
Definition message_or_default (e : exn) : jsstring :=
  match message e with [] => js "Server error" | m => m end.

Definition route_handler (start end_ : value) : io response :=
  try_catch
    (if negb (truthy start) || negb (truthy end_) then
       ret (error_response 400 (js "start and end required"))
     else
       let* startCoords := resolve start in
       let* endCoords := resolve end_ in
       request_route startCoords endCoords)
    (fun err => ret (error_response 500 (message_or_default err))).

(** *** [POST /save-route] and [GET /routes] *)

(** [const { name, geo } = req.body] *)
Definition destructure (b : value) (key : jsstring) : result value :=
  let fail (what : jsstring) :=
    Throw (TypeError (js "Cannot destructure property '" ++ key
                      ++ js "' of 'req.body' as it is " ++ what ++ js ".")) in
  match b with
  | VUndefined => fail (js "undefined")
  | VNull => fail (js "null")
  | _ => get b key
  end.

Definition save_route_handler (routesCollection : option collection)
  (req_body : value) : io response :=
  match routesCollection with
  | None => ret (error_response 400 (js "MongoDB not configured"))
  | Some c =>
      let* name := lift (destructure req_body (js "name")) in
      let* geo := lift (destructure req_body (js "geo")) in
      if negb (truthy geo) then ret (error_response 400 (js "geo required"))
      else
        try_catch
          (pbind (Do Now Ret) (fun createdAt =>
           let doc := VObj [(js "name",
                             if truthy name then name else VStr (js "Unnamed"));
                            (js "geo", geo);
                            (js "createdAt", createdAt)] in
           let* insertedId := Do (InsertOne c doc) Ret in
           ret {| status := 200;
                  body := VObj [(js "ok", VBool true);
                                (js "id", insertedId);
                                (js "message", VStr (js "Saved"))] |}))
          (fun err => ret (error_response 500 (js "Save failed")))
  end.

Definition routes_handler (routesCollection : option collection)
  : io response :=
  match routesCollection with
  | None => ret {| status := 200; body := VArr [] |}
  | Some c =>
      let* list := Do (FindToArray c (js "createdAt") (-1) 50) Ret in
      ret {| status := 200; body := VArr list |}
  end.

(** *** The process *)

(** The module state: the two configuration variables read at startup,
    whether the startup task is still waiting for [client.connect()], and
    the global [routesCollection]. *)
Record process : Type :=
  { MONGODB_URI : option jsstring;
    MONGODB_DB : option jsstring;
    connecting : bool;
    routesCollection : option collection }.

Definition configured (v : option jsstring) : bool :=
  match v with Some (_ :: _) => true | _ => false end.

(** Lines 15 to 28: the collection starts as [null], and the connection
    task is started only when [MONGODB_URI] is set. *)
Definition startup (uri db : option jsstring) : process :=
  {| MONGODB_URI := uri; MONGODB_DB := db;
     connecting := configured uri;
     routesCollection := None |}.

Inductive request : Type :=
| GetRoot
| GetGeocode (q : value)
| GetRoute (start end_ : value)
| PostSaveRoute (req_body : value)
| GetRoutes.

(** What the event loop delivers: the connection attempt of the startup
    task completes, or a request arrives. *)
Inductive input : Type :=
| ConnectResolved
| ConnectRejected
| Request (r : request).

Definition handle (p : process) (r : request) : io response :=
  match r with
  | GetRoot => root_handler
  | GetGeocode q => geocode_handler q
  | GetRoute start end_ => route_handler start end_
  | PostSaveRoute req_body => save_route_handler (routesCollection p) req_body
  | GetRoutes => routes_handler (routesCollection p)
  end.

(** The state after the connection attempt completes: only a pending
    startup task assigns [routesCollection]. *)
Definition connected (p : process) (success : bool) : process :=
  if connecting p then
    {| MONGODB_URI := MONGODB_URI p; MONGODB_DB := MONGODB_DB p;
       connecting := false;
       routesCollection :=
         if success then
           Some {| db_name := match MONGODB_DB p with
                              | Some (c :: d) => c :: d
                              | _ => js "easymap"
                              end;
                   coll_name := js "routes" |}
         else routesCollection p |}
  else p.

(** The process serves its inputs in order.  A request answers with a
    response, or with the exception that escaped its handler. *)
Fixpoint serve {W} (env : environment W) (p : process) (ins : list input)
  (w : W) : list (request * result response) :=
  match ins with
  | [] => []
  | ConnectResolved :: rest => serve env (connected p true) rest w
  | ConnectRejected :: rest => serve env (connected p false) rest w
  | Request r :: rest =>
      let '(answer, _, w') := run env (handle p r) w in
      (r, answer) :: serve env p rest w'
  end.

End Server.

Import Server.

(* ================================================================== *)
(** ** Notions of the specification *)
(* ================================================================== *)

Module Spec.

Local Open Scope io_scope.

Definition digit (c : code_unit) : Prop := is_digit c = true.
Definition white_space (c : code_unit) : Prop := is_white_space c = true.

(** The words of a pattern: for each quantified atom in turn a block of
    characters that the atom matches, as many as the quantifier allows,
    and nothing after the last block. *)
Definition allows (q : Regex.quantifier) (n : nat) : Prop :=
  match q with
  | Regex.Once => n = 1%nat
  | Regex.Optional => (n <= 1)%nat
  | Regex.ZeroOrMore => True
  | Regex.OneOrMore => (1 <= n)%nat
  end.

Fixpoint denotes (r : Regex.regex) (t : jsstring) : Prop :=
  match r with
  | [] => t = []
  | (a, q) :: r' =>
      exists u v, t = u ++ v
                  /\ Forall (fun c => Regex.atom_matches a c = true) u
                  /\ allows q (List.length u)
                  /\ denotes r' v
  end.

(** [<optional-minus><digits><optional-decimal-digits>]: an optional
    minus sign, at least one digit, an optional decimal point, and any
    number of digits. *)
Definition coordinate_number (t : jsstring) : Prop :=
  exists sign int_part point frac_part,
    t = sign ++ int_part ++ point ++ frac_part
    /\ (sign = [] \/ sign = js "-")
    /\ int_part <> [] /\ Forall digit int_part
    /\ (point = [] \/ point = js ".")
    /\ Forall digit frac_part.

(** Two such numbers with one comma between them. *)
Definition coordinate_pair (t : jsstring) : Prop :=
  exists a b, t = a ++ js "," ++ b
              /\ coordinate_number a /\ coordinate_number b.

(** The characters of a number text: the minus sign, the point, digits. *)
Definition number_char (c : code_unit) : Prop := (45 <= c <= 57)%N.

(** The reading of a number text: its sign, the digits up to the point,
    and the digits after the point when there is one. *)
Definition reads_as (t : jsstring) (neg : bool) (ip fp : jsstring) : Prop :=
  ip <> [] /\ Forall digit ip /\ Forall digit fp
  /\ (t = (if neg then js "-" else []) ++ ip /\ fp = []
      \/ t = (if neg then js "-" else []) ++ ip ++ js "." ++ fp).

(** The digits before the decimal point of a number text. *)
Definition integer_digits (t : jsstring) : jsstring :=
  fst (Num.span_digits (snd (Num.span_sign t))).

(** A request to the routing service, and one to the geocoding service. *)
Definition to_routing_service (url : jsstring) : Prop :=
  exists rest, url = OSRM_BASE ++ rest.

Definition to_geocoding_service (url : jsstring) : Prop :=
  exists rest, url = NOMINATIM_BASE ++ rest.

(** A query parameter that is absent, or present and empty. *)
Definition absent_or_empty (v : value) : Prop :=
  v = VUndefined \/ v = VStr [].

(** The [/route] handler with the two resolution steps in the other
    order: [end] is resolved before [start]. *)
Definition route_handler_end_first (start end_ : value) : io response :=
  try_catch
    (if negb (truthy start) || negb (truthy end_) then
       ret (error_response 400 (js "start and end required"))
     else
       let* endCoords := resolve end_ in
       let* startCoords := resolve start in
       request_route startCoords endCoords)
    (fun err => ret (error_response 500 (message_or_default err))).

(** An environment whose answers do not depend on what was asked
    before. *)
Definition stateless {W} (env : environment W) : Prop :=
  forall X (c : call X) w w', fst (env X c w) = fst (env X c w').

(** The resolution of one location succeeds. *)
Definition resolves {W} (env : environment W) (w : W) (input : value) : Prop :=
  exists c, outcome env (resolve input) w = Ok c.

(** A geocoding backend that answers every request with success and an
    empty result list, a routing backend that refuses connections. *)
Definition nothing_found : environment unit :=
  fun X c w =>
    match c in call X return X * unit with
    | Fetch _ (Some _) => (Response true (Ok (VArr [])), w)
    | Fetch _ None => (Rejected (Error (js "connect ECONNREFUSED")), w)
    | Now => (VNull, w)
    | InsertOne _ _ => (Throw (Error (js "not connected")), w)
    | FindToArray _ _ _ _ => (Throw (Error (js "not connected")), w)
    end.

(** A routing backend that answers with one route. *)
Definition one_route (distance duration : Z) : environment unit :=
  fun X c w =>
    match c in call X return X * unit with
    | Fetch _ _ =>
        (Response true
           (Ok (VObj [(js "code", VStr (js "Ok"));
                      (js "routes",
                       VArr [VObj [(js "distance", VNum (Num.of_Z distance));
                                   (js "duration", VNum (Num.of_Z duration));
                                   (js "geometry", VNull)]])])), w)
    | Now => (VNull, w)
    | InsertOne _ _ => (Throw (Error (js "not connected")), w)
    | FindToArray _ _ _ _ => (Throw (Error (js "not connected")), w)
    end.

(** A geocoding backend that counts the requests it has answered: the
    first is answered with one place, every later one with another. *)
Definition moving_target : environment nat :=
  fun X c n =>
    match c in call X return X * nat with
    | Fetch _ (Some _) =>
        (Response true
           (Ok (VArr [VObj [(js "lat", VStr (if Nat.eqb n 0 then js "1" else js "3"));
                            (js "lon", VStr (if Nat.eqb n 0 then js "2" else js "4"));
                            (js "display_name", VStr (js "somewhere"))]])),
         S n)
    | Fetch _ None =>
        (Response true
           (Ok (VObj [(js "routes",
                       VArr [VObj [(js "distance", VNum (Num.of_Z 1));
                                   (js "duration", VNum (Num.of_Z 1));
                                   (js "geometry", VNull)]])])), n)
    | Now => (VNull, n)
    | InsertOne _ _ => (Throw (Error (js "not connected")), n)
    | FindToArray _ _ _ _ => (Throw (Error (js "not connected")), n)
    end.

(** Sample Numbers: mantissas from a linear congruential generator, with
    exponents between [2^-28] and [2^71] in magnitude. *)
Fixpoint sample_numbers (n : nat) (x : Z) : list number :=
  match n with
  | O => []
  | S n' =>
      let x' := ((6364136223846793005 * x + 1442695040888963407)
                 mod 2 ^ 64)%Z in
      match (2 ^ 52 + x' mod 2 ^ 52)%Z with
      | Zpos m =>
          S754_finite (Z.odd (x' / 2 ^ 60)) m ((x' / 2 ^ 52) mod 100 - 80)%Z
          :: sample_numbers n' x'
      | _ => sample_numbers n' x'
      end
  end.

(** A digit one followed by [n] zeros. *)
Definition one_and_zeros (n : nat) : jsstring := 49%N :: repeat 48%N n.

End Spec.

Import Spec.

(* ================================================================== *)
(** ** The earlier variant of the service *)
(* ================================================================== *)

Module Legacy.

Local Open Scope io_scope.

(** The second [server.js] of the repository, an earlier variant of the
    same service: its [/route] takes the two parameters as ["lon,lat"] and
    hands them to the routing service as they are; the response has no
    [start_coords] and [end_coords], and the catch-all answers with a fixed
    message.  It has no [/geocode]; its other handlers are those of the
    later variant. *)
Definition route_handler (start end_ : value) : io response :=
  try_catch
    (if negb (truthy start) || negb (truthy end_) then
       ret (error_response 400
              (js "start and end required as " ++ quoted (js "lon,lat")))
     else
       let* startText := lift (to_string start) in
       let* endText := lift (to_string end_) in
       let* (ok, json) := fetch (route_url startText endText) None in
       if negb ok then ret (error_response 502 (js "Routing service error"))
       else
         let* j := lift json in
         let* routes := lift (get j (js "routes")) in
         let* none :=
           lift (if negb (truthy routes) then Ok true
                 else bind (get routes (js "length"))
                        (fun n => Ok (negb (truthy n)))) in
         if (none : bool) then ret (error_response 404 (js "No route found"))
         else
           let* route := lift (get routes (js "0")) in
           let* distance := lift (get route (js "distance")) in
           let* duration := lift (get route (js "duration")) in
           let* geometry := lift (get route (js "geometry")) in
           ret {| status := 200;
                  body := VObj [(js "distance_meters", distance);
                                (js "duration_seconds", duration);
                                (js "geometry", geometry)] |})
    (fun err => ret (error_response 500 (js "Server error"))).

End Legacy.

(* ================================================================== *)
(** ** Further notions *)
(* ================================================================== *)

Module Notions.

(** The characters that [encodeURIComponent] can produce: the unreserved
    ones and the percent sign. *)
Definition url_safe (c : code_unit) : Prop :=
  unreserved c = true \/ c = 37%N.

(** A code unit of UTF-16, and one that is half of a surrogate pair. *)
Definition utf16 (c : code_unit) : Prop := (c < 65536)%N.

Definition surrogate (c : code_unit) : Prop :=
  is_high_surrogate c = true \/ is_low_surrogate c = true.

(** The characters of an accepted coordinate string. *)
Definition coordinate_char (c : code_unit) : Prop :=
  digit c \/ c = 45%N \/ c = 46%N \/ c = 44%N.

(** A query parameter that the framework parsed into an array or an
    object, as for [?start=a&start=b] and [?start[k]=v]. *)
Definition structured (v : value) : Prop :=
  (exists items, v = VArr items) \/ (exists fields, v = VObj fields).

(** The two kinds of request that the handlers send. *)
Definition geocoding_request (e : event) : Prop :=
  exists url, request_of e = Some (url, Some USER_AGENT)
              /\ to_geocoding_service url.

Definition routing_request (e : event) : Prop :=
  exists url, request_of e = Some (url, None) /\ to_routing_service url.

(** The exception that the geocoding client throws for the place name [q]
    when [inner] is the message of what went wrong. *)
Definition geocoding_failed (q inner : jsstring) : exn :=
  Error (js "Geocoding failed for " ++ quoted q ++ js ": " ++ inner).

(** The status codes of the error responses of [/route]. *)
Definition route_error_status (code : Z) : Prop :=
  code = 400%Z \/ code = 404%Z \/ code = 500%Z \/ code = 502%Z.

(** The collection that a successful connection assigns. *)
Definition routes_of (db : option jsstring) : collection :=
  {| db_name := match db with
                | Some (c :: d) => c :: d
                | _ => js "easymap"
                end;
     coll_name := js "routes" |}.

(** The module state after the event loop has delivered [ins]: requests
    leave it as it is. *)
Definition process_after (p : process) (ins : list input) : process :=
  fold_left (fun p i =>
               match i with
               | ConnectResolved => connected p true
               | ConnectRejected => connected p false
               | Request _ => p
               end) ins p.

(** An input that is a request, not the outcome of the connection
    attempt. *)
Definition is_request (i : input) : Prop :=
  match i with Request _ => True | _ => False end.

(** The document that [/save-route] inserts. *)
Definition route_document (name geo createdAt : value) : value :=
  VObj [(js "name", if truthy name then name else VStr (js "Unnamed"));
        (js "geo", geo);
        (js "createdAt", createdAt)].

(** An own property, [undefined] when there is none. *)
Definition field (key : jsstring) (fields : list (jsstring * value)) : value :=
  match own key fields with Some x => x | None => VUndefined end.

(** Backends for the examples: a geocoding service that knows one place,
    a routing service with one route, and a store that accepts every
    document and holds one. *)
Definition friendly : environment unit :=
  fun X c w =>
    match c in call X return X * unit with
    | Fetch _ (Some _) =>
        (Response true
           (Ok (VArr [VObj [(js "lat", VStr (js "48.8566"));
                            (js "lon", VStr (js "2.3522"));
                            (js "display_name", VStr (js "Paris"))];
                      VObj [(js "lat", VStr (js "33.66"));
                            (js "lon", VStr (js "-95.55"));
                            (js "display_name", VStr (js "Paris, Texas"))]])),
         w)
    | Fetch _ None =>
        (Response true
           (Ok (VObj [(js "code", VStr (js "Ok"));
                      (js "routes",
                       VArr [VObj [(js "distance", VNum (Num.of_Z 1234));
                                   (js "duration", VNum (Num.of_Z 60));
                                   (js "geometry", VNull)]])])), w)
    | Now => (VStr (js "2024-01-01T00:00:00.000Z"), w)
    | InsertOne _ _ => (Ok (VStr (js "65a1")), w)
    | FindToArray _ _ _ _ => (Ok [VObj [(js "name", VStr (js "Unnamed"))]], w)
    end.

(** Services that answer without the expected content: a geocoding
    result without coordinates, a routing answer without routes. *)
Definition incomplete : environment unit :=
  fun X c w =>
    match c in call X return X * unit with
    | Fetch _ (Some _) =>
        (Response true
           (Ok (VArr [VObj [(js "display_name", VStr (js "Atlantis"))]])), w)
    | Fetch _ None =>
        (Response true (Ok (VObj [(js "code", VStr (js "NoRoute"))])), w)
    | Now => (VNull, w)
    | InsertOne _ _ => (Throw (Error (js "not connected")), w)
    | FindToArray _ _ _ _ => (Throw (Error (js "not connected")), w)
    end.

(** Services that answer with a non-success status. *)
Definition unavailable : environment unit :=
  fun X c w =>
    match c in call X return X * unit with
    | Fetch _ _ => (Response false (Throw (Error (js "unused"))), w)
    | Now => (VNull, w)
    | InsertOne _ _ => (Throw (Error (js "not connected")), w)
    | FindToArray _ _ _ _ => (Throw (Error (js "not connected")), w)
    end.

End Notions.

Import Notions.

(* ================================================================== *)
(** ** Strings: trimming and splitting *)
(* ================================================================== *)

(** Decide the character comparisons of the goal from the bounds at
    hand. *)
Ltac char_cases :=
  repeat match goal with
         | |- context [N.leb ?a ?b] =>
             first [ replace (N.leb a b) with true
                       by (symmetry; apply N.leb_le; lia)
                   | replace (N.leb a b) with false
                       by (symmetry; apply N.leb_gt; lia) ]
         | |- context [N.eqb ?a ?b] =>
             first [ replace (N.eqb a b) with false
                       by (symmetry; apply N.eqb_neq; lia)
                   | replace (N.eqb a b) with true
                       by (symmetry; apply N.eqb_eq; lia) ]
         end;
  simpl; try reflexivity.

Section StringLemmas.

Lemma trimStart_spec (s : jsstring) :
  exists l, s = l ++ trimStart s /\ Forall white_space l.
Proof.
  induction s as [|c s IH]; simpl.
  - exists []; auto.
  - destruct (is_white_space c) eqn:E.
    + destruct IH as (l & Hs & Hl). exists (c :: l). split.
      * simpl. now rewrite <- Hs.
      * constructor; auto.
    + exists []; auto.
Qed.

Lemma trimStart_head (c : code_unit) (s : jsstring) :
  is_white_space c = false -> trimStart (c :: s) = c :: s.
Proof. intros H; simpl; now rewrite H. Qed.

Lemma trimStart_skip (l t : jsstring) :
  Forall white_space l -> trimStart (l ++ t) = trimStart t.
Proof.
  induction 1 as [|c l Hc _ IH]; simpl; auto.
  now rewrite Hc.
Qed.

Lemma trimEnd_spec (s : jsstring) :
  exists r, s = trimEnd s ++ r /\ Forall white_space r.
Proof.
  unfold trimEnd. destruct (trimStart_spec (rev s)) as (l & Hs & Hl).
  exists (rev l). split.
  - rewrite <- rev_app_distr, <- Hs. now rewrite rev_involutive.
  - now apply Forall_rev.
Qed.

Lemma trimEnd_skip (t r : jsstring) :
  Forall white_space r -> trimEnd (t ++ r) = trimEnd t.
Proof.
  intros H. unfold trimEnd. rewrite rev_app_distr.
  rewrite trimStart_skip; auto. now apply Forall_rev.
Qed.

Lemma trimEnd_last (t : jsstring) (c : code_unit) :
  is_white_space c = false -> trimEnd (t ++ [c]) = t ++ [c].
Proof.
  intros H. unfold trimEnd. rewrite rev_app_distr. simpl.
  rewrite H. simpl. now rewrite rev_involutive.
Qed.

(** What [trim] removes is white space on both sides. *)
Lemma trim_spec (s : jsstring) :
  exists l r, s = l ++ trim s ++ r
              /\ Forall white_space l /\ Forall white_space r.
Proof.
  destruct (trimStart_spec s) as (l & Hs & Hl).
  destruct (trimEnd_spec (trimStart s)) as (r & Ht & Hr).
  exists l, r. unfold trim. split; [|split]; auto.
  now rewrite <- Ht.
Qed.

(** A string that neither starts nor ends with white space is what
    [trim] leaves of it, whatever white space surrounds it. *)
Lemma trim_surrounded (l r t : jsstring) (c d : code_unit) (u v : jsstring) :
  Forall white_space l -> Forall white_space r ->
  t = c :: u -> t = v ++ [d] ->
  is_white_space c = false -> is_white_space d = false ->
  trim (l ++ t ++ r) = t.
Proof.
  intros Hl Hr Hc Hd Wc Wd. unfold trim.
  rewrite trimStart_skip by assumption.
  rewrite Hc. simpl. rewrite Wc.
  change (c :: u ++ r) with ((c :: u) ++ r). rewrite <- Hc.
  rewrite trimEnd_skip by assumption.
  rewrite Hd. now apply trimEnd_last.
Qed.

Lemma split_no_separator (sep : code_unit) (t : jsstring) :
  Forall (fun c => c <> sep) t -> split sep t = [t].
Proof.
  induction 1 as [|c t Hc _ IH]; simpl; auto.
  destruct (N.eqb_spec c sep); [contradiction|]. now rewrite IH.
Qed.

Lemma split_one_separator (sep : code_unit) (a b : jsstring) :
  Forall (fun c => c <> sep) a -> Forall (fun c => c <> sep) b ->
  split sep (a ++ sep :: b) = [a; b].
Proof.
  intros Ha Hb. induction Ha as [|c a Hc _ IH]; simpl.
  - rewrite N.eqb_refl. now rewrite split_no_separator.
  - destruct (N.eqb_spec c sep); [contradiction|]. now rewrite IH.
Qed.

End StringLemmas.

(* ================================================================== *)
(** ** The matcher decides the language of the pattern *)
(* ================================================================== *)

Section Matcher.

Import Regex.

Variable a : atom.
Variable k : jsstring -> bool.

Lemma step_spec (s : jsstring) :
  step a k s = true <->
  exists c v, s = c :: v /\ atom_matches a c = true /\ k v = true.
Proof.
  destruct s as [|c s]; simpl.
  - split; [discriminate | intros (c & v & H & _); discriminate].
  - split.
    + destruct (atom_matches a c) eqn:E; [|discriminate].
      intros H. now exists c, s.
    + intros (c' & v & H & H1 & H2). inversion H; subst. now rewrite H1.
Qed.

Lemma star_spec (s : jsstring) :
  star a k s = true <->
  exists u v, s = u ++ v
              /\ Forall (fun c => atom_matches a c = true) u /\ k v = true.
Proof.
  induction s as [|c s IH]; simpl.
  - split.
    + intros H. now exists [], [].
    + intros (u & v & H & _ & Hk).
      symmetry in H. apply app_eq_nil in H as [-> ->]. exact Hk.
  - split.
    + destruct (atom_matches a c) eqn:Hc;
        [case_eq (star a k s); intros Hs|].
      * intros _. apply IH in Hs. destruct Hs as (u & v & -> & Hu & Hk).
        exists (c :: u), v. auto.
      * intros Hk. exists [], (c :: s). auto.
      * intros Hk. exists [], (c :: s). auto.
    + intros (u & v & H & Hu & Hk). destruct u as [|c' u]; simpl in H.
      * subst v. rewrite Hk.
        destruct (atom_matches a c); [|reflexivity].
        now case (star a k s).
      * inversion H; subst. inversion Hu as [|? ? Hc Hu']; subst.
        rewrite Hc. assert (Hs : star a k (u ++ v) = true).
        { apply IH. now exists u, v. }
        now rewrite Hs.
Qed.

End Matcher.

Lemma matches_denotes (r : Regex.regex) (t : jsstring) :
  Regex.matches r t = true <-> denotes r t.
Proof.
  revert t. induction r as [|[a q] r IH]; intros t.
  - destruct t; simpl; split; congruence.
  - cbn [Regex.matches denotes]. destruct q.
    + rewrite step_spec. split.
      * intros (c & v & -> & Hc & Hk). exists [c], v. simpl.
        repeat split; auto. now apply IH.
      * intros (u & v & -> & Hu & Hn & Hd). simpl in Hn.
        destruct u as [|c [|? ?]]; try discriminate.
        inversion Hu; subst. exists c, v. repeat split; auto. now apply IH.
    + split.
      * destruct (Regex.step a (Regex.matches r) t) eqn:Hs.
        -- intros _. apply step_spec in Hs.
           destruct Hs as (c & v & -> & Hc & Hk).
           exists [c], v. simpl. repeat split; auto. now apply IH.
        -- intros Hk. exists [], t. simpl. repeat split; auto. now apply IH.
      * intros (u & v & -> & Hu & Hn & Hd). simpl in Hn.
        destruct u as [|c [|? ?]]; simpl in *; try lia.
        -- apply IH in Hd. rewrite Hd.
           now destruct (Regex.step a (Regex.matches r) v).
        -- inversion Hu; subst.
           assert (Hs : Regex.step a (Regex.matches r) (c :: v) = true).
           { apply step_spec. exists c, v. repeat split; auto. now apply IH. }
           unfold Regex.step in Hs. now rewrite Hs.
    + rewrite star_spec. split.
      * intros (u & v & -> & Hu & Hk). exists u, v.
        repeat split; auto. now apply IH.
      * intros (u & v & -> & Hu & _ & Hd). exists u, v.
        repeat split; auto. now apply IH.
    + rewrite step_spec. split.
      * intros (c & v & -> & Hc & Hk). apply star_spec in Hk.
        destruct Hk as (u & v' & -> & Hu & Hk).
        exists (c :: u), v'. simpl. repeat split; auto; try lia.
        now apply IH.
      * intros (u & v & -> & Hu & Hn & Hd). simpl in Hn.
        destruct u as [|c u]; simpl in *; try lia.
        inversion Hu; subst. exists c, (u ++ v). repeat split; auto.
        apply star_spec. exists u, v. repeat split; auto. now apply IH.
Qed.

Section CoordPattern.

Lemma literal_block (x : code_unit) (u : jsstring) :
  Forall (fun c => Regex.atom_matches (Regex.Lit x) c = true) u ->
  (List.length u <= 1)%nat -> u = [] \/ u = [x].
Proof.
  intros Hu Hn. destruct u as [|c [|? ?]]; simpl in *; try lia; auto.
  inversion Hu; subst. apply N.eqb_eq in H1. subst. auto.
Qed.

Lemma number_blocks (t : jsstring) (r : Regex.regex) :
  denotes ((Regex.Lit 45, Regex.Optional) :: (Regex.Digit, Regex.OneOrMore)
           :: (Regex.Lit 46, Regex.Optional) :: (Regex.Digit, Regex.ZeroOrMore)
           :: r)%N t <->
  exists a v, t = a ++ v /\ coordinate_number a /\ denotes r v.
Proof.
  cbn [denotes]. split.
  - intros (u1 & v1 & -> & H1 & N1 & u2 & v2 & -> & H2 & N2
            & u3 & v3 & -> & H3 & N3 & u4 & v4 & -> & H4 & _ & Hd).
    exists (u1 ++ u2 ++ u3 ++ u4), v4. split.
    { now rewrite <- !app_assoc. }
    split; auto. exists u1, u2, u3, u4. repeat split; auto.
    + now apply literal_block.
    + destruct u2; simpl in *; [lia | discriminate].
    + now apply literal_block.
  - intros (a & v & -> & (sg & ip & pt & fp & -> & Hs & Hn & Hi & Hp & Hf) & Hd).
    exists sg, (ip ++ pt ++ fp ++ v). split.
    { now rewrite <- !app_assoc. }
    split. { destruct Hs as [-> | ->]; repeat constructor. }
    split. { destruct Hs as [-> | ->]; simpl; lia. }
    exists ip, (pt ++ fp ++ v). repeat split; auto.
    { destruct ip; simpl; [congruence | lia]. }
    exists pt, (fp ++ v). repeat split; auto.
    { destruct Hp as [-> | ->]; repeat constructor. }
    { destruct Hp as [-> | ->]; simpl; lia. }
    exists fp, v. repeat split; auto.
Qed.

(** The words of [coordPattern] are the coordinate pairs. *)
Lemma coordPattern_denotes (t : jsstring) :
  denotes coordPattern t <-> coordinate_pair t.
Proof.
  unfold coordPattern, coordinate_pair. rewrite number_blocks. split.
  - intros (a & v & -> & Ha & Hv).
    destruct Hv as (u & v' & -> & Hu & Hn & Hd). simpl in Hn.
    destruct u as [|c [|? ?]]; try discriminate.
    inversion Hu; subst. apply N.eqb_eq in H1. subst c.
    apply (number_blocks v' []) in Hd. destruct Hd as (b & w & -> & Hb & ->).
    exists a, b. rewrite app_nil_r. auto.
  - intros (a & b & -> & Ha & Hb). exists a, (js "," ++ b).
    repeat split; auto. cbn [denotes].
    exists (js ","), b. repeat split; auto.
    + repeat constructor.
    + apply (number_blocks b []). exists b, []. rewrite app_nil_r.
      repeat split; auto.
Qed.

End CoordPattern.

(** The classifier on a string. *)
Lemma isCoordinates_true (s : jsstring) :
  isCoordinates (VStr s) = Ok true <-> coordinate_pair (trim s).
Proof.
  unfold isCoordinates, Regex.test. split.
  - intros [= H]. now apply coordPattern_denotes, matches_denotes.
  - intros H. apply coordPattern_denotes, matches_denotes in H. now rewrite H.
Qed.

(** *** C2 *)

(** C2: on every string the classifier returns a boolean without raising,
    and that boolean is [true] exactly when the trimmed string is a
    coordinate pair: an optional minus sign, digits, an optional decimal
    point and digits, a comma, and the same again.  The empty string, place
    names and malformed coordinates are classified as place names. *)
Theorem isCoordinates_iff_coordinate_pair (s : jsstring) :
  exists b : bool,
    isCoordinates (VStr s) = Ok b
    /\ (b = true <-> coordinate_pair (trim s)).
Proof.
  exists (Regex.test coordPattern (trim s)). split; [reflexivity|].
  split.
  - intros E. apply isCoordinates_true. unfold isCoordinates. now rewrite E.
  - intros H. apply isCoordinates_true in H. unfold isCoordinates in H.
    congruence.
Qed.

Example isCoordinates_examples :
  isCoordinates (VStr (js "12.34,56.78")) = Ok true
  /\ isCoordinates (VStr (js "  -12.,-0.5 ")) = Ok true
  /\ isCoordinates (VStr (js "New York")) = Ok false
  /\ isCoordinates (VStr (js "12.34,")) = Ok false
  /\ isCoordinates (VStr (js "")) = Ok false
  /\ isCoordinates (VStr (js "1,2,3")) = Ok false
  /\ isCoordinates (VStr (js "1 ,2")) = Ok false.
Proof. repeat apply conj; vm_compute; reflexivity. Qed.

(* ================================================================== *)
(** ** Numbers: sample values *)
(* ================================================================== *)

(** The rounding agrees with the binary64 operations of the Standard
    Library's [SpecFloat] where these compute the same real: a quotient,
    a tie, the least subnormal, the largest finite value and the first
    real that overflows. *)
Example round_agrees_with_SpecFloat :
  Num.round false 1 10
  = SFdiv 53 1024 (S754_finite false 1 0) (S754_finite false 10 0)
  /\ Num.round true 2 3
     = SFdiv 53 1024 (S754_finite true 2 0) (S754_finite false 3 0)
  /\ Num.round false (2 ^ 53 + 1) 1
     = binary_normalize 53 1024 (2 ^ 53 + 1) 0 false
  /\ Num.round false (2 ^ 53 + 3) 1
     = binary_normalize 53 1024 (2 ^ 53 + 3) 0 false
  /\ Num.round false 3 (10 ^ 324)
     = SFdiv 53 1024 (S754_finite false 3 0) (S754_finite false (10 ^ 324) 0)
  /\ Num.round false 2 (10 ^ 324)
     = SFdiv 53 1024 (S754_finite false 2 0) (S754_finite false (10 ^ 324) 0)
  /\ Num.round false (2 ^ 1024 - 2 ^ 970 - 1) 1
     = binary_normalize 53 1024 (2 ^ 1024 - 2 ^ 970 - 1) 0 false
  /\ Num.round false (2 ^ 1024 - 2 ^ 970) 1
     = binary_normalize 53 1024 (2 ^ 1024 - 2 ^ 970) 0 false.
Proof. repeat apply conj; vm_compute; reflexivity. Qed.

Example parseFloat_examples :
  Num.parseFloat (js "40.0") = Num.of_Z 40
  /\ Num.parseFloat (js "  -73.0abc") = Num.of_Z (-73)
  /\ Num.parseFloat (js "5.e1") = Num.of_Z 50
  /\ Num.parseFloat (js "1e") = Num.of_Z 1
  /\ Num.parseFloat (js ".5") = Num.round false 1 2
  /\ Num.parseFloat (js "-0") = S754_zero true
  /\ Num.parseFloat (js "abc") = NaN
  /\ Num.parseFloat (js ".") = NaN
  /\ Num.parseFloat (js "-Infinityx") = S754_infinity true
  /\ Num.parseFloat (js "1e400") = S754_infinity false
  /\ Num.parseFloat (js "1.7976931348623158e308")
     = S754_finite false 9007199254740991 971
  /\ Num.parseFloat (js "1.7976931348623159e308") = S754_infinity false.
Proof. repeat apply conj; vm_compute; reflexivity. Qed.

Example toString_examples :
  Num.toString (Num.parseFloat (js "40.0")) = js "40"
  /\ Num.toString (Num.parseFloat (js "-73.0")) = js "-73"
  /\ Num.toString (Num.parseFloat (js "0.1")) = js "0.1"
  /\ Num.toString (Num.parseFloat (js "-0")) = js "0"
  /\ Num.toString (Num.parseFloat (js "123.456")) = js "123.456"
  /\ Num.toString (Num.parseFloat (js "0.1234567890123456789"))
     = js "0.12345678901234568"
  /\ Num.toString (Num.parseFloat (js "9007199254740993"))
     = js "9007199254740992"
  /\ Num.toString (Num.parseFloat (js "123456789012345680000"))
     = js "123456789012345680000"
  /\ Num.toString (Num.parseFloat (js "1000000000000000000000")) = js "1e+21"
  /\ Num.toString (Num.parseFloat (js "0.000001")) = js "0.000001"
  /\ Num.toString (Num.parseFloat (js "0.0000001")) = js "1e-7"
  /\ Num.toString (Num.parseFloat (js "5e-324")) = js "5e-324"
  /\ Num.toString (Num.parseFloat (js "1.7976931348623157e308"))
     = js "1.7976931348623157e+308"
  /\ Num.toString NaN = js "NaN".
Proof. repeat apply conj; vm_compute; reflexivity. Qed.

(** Printing a Number and parsing the text gives the Number back: here
    on sample values, on the extreme finite values and on coordinates. *)
Example toString_parseFloat_samples :
  forallb (fun x => Num.number_eqb (Num.parseFloat (Num.toString x)) x)
    (sample_numbers 100 1
     ++ [S754_finite false 1 (-1074);
         S754_finite true 4503599627370495 (-1074);
         S754_finite false 4503599627370496 (-1074);
         S754_finite false 9007199254740991 971;
         Num.parseFloat (js "40.7128"); Num.parseFloat (js "-74.0060");
         Num.parseFloat (js "1e23"); Num.parseFloat (js "123456789.123456789")])
  = true.
Proof. vm_compute. reflexivity. Qed.

(* ================================================================== *)
(** ** [parseFloat] on the numbers of a coordinate pair *)
(* ================================================================== *)

Section NumberTexts.

Lemma digit_range (c : code_unit) : digit c <-> (48 <= c <= 57)%N.
Proof.
  unfold digit, is_digit. rewrite andb_true_iff, !N.leb_le. tauto.
Qed.

Lemma number_char_not_space (c : code_unit) :
  number_char c -> is_white_space c = false.
Proof. unfold number_char, is_white_space. intros H. char_cases. Qed.

Lemma number_char_not_comma (c : code_unit) : number_char c -> c <> 44%N.
Proof. unfold number_char. lia. Qed.

Lemma white_space_not_comma (c : code_unit) : white_space c -> c <> 44%N.
Proof. intros H ->. discriminate H. Qed.

Lemma digits_number_chars (ds : jsstring) :
  Forall digit ds -> Forall number_char ds.
Proof.
  apply Forall_impl. intros c H. apply digit_range in H.
  unfold number_char. lia.
Qed.

Lemma coordinate_number_reads {t : jsstring} :
  coordinate_number t -> exists neg ip fp, reads_as t neg ip fp.
Proof.
  intros (sg & ip & pt & fp & -> & Hs & Hn & Hi & Hp & Hf).
  assert (Hsg : exists neg : bool, sg = if neg then js "-" else []).
  { destruct Hs as [-> | ->]; [now exists false | now exists true]. }
  destruct Hsg as (neg & ->).
  destruct Hp as [-> | ->].
  - exists neg, (ip ++ fp), []. repeat split; auto.
    + destruct ip; simpl; congruence.
    + apply Forall_app; auto.
  - exists neg, ip, fp. repeat split; auto.
Qed.

Lemma reads_as_chars {t : jsstring} {neg : bool} {ip fp : jsstring} :
  reads_as t neg ip fp -> Forall number_char t /\ t <> [].
Proof.
  intros (Hip & Dip & Dfp & Ht).
  assert (Hsg : Forall number_char (if neg then js "-" else [])).
  { destruct neg; [|constructor]. change (js "-") with [45%N].
    constructor; [unfold number_char; lia | constructor]. }
  destruct Ht as [[-> _] | ->]; split.
  - apply Forall_app. split; [exact Hsg | now apply digits_number_chars].
  - destruct neg, ip; simpl; congruence.
  - apply Forall_app. split; [exact Hsg|].
    apply Forall_app. split; [now apply digits_number_chars|].
    change (js ".") with [46%N].
    constructor; [unfold number_char; lia | now apply digits_number_chars].
  - destruct neg, ip; simpl; congruence.
Qed.

Lemma coordinate_number_chars {t : jsstring} :
  coordinate_number t -> Forall number_char t /\ t <> [].
Proof.
  intros H. destruct (coordinate_number_reads H) as (neg & ip & fp & R).
  exact (reads_as_chars R).
Qed.

Lemma span_digits_all (ds rest : jsstring) :
  Forall digit ds ->
  match rest with [] => True | c :: _ => is_digit c = false end ->
  Num.span_digits (ds ++ rest) = (ds, rest).
Proof.
  intros Hd Hr. induction Hd as [|c ds Hc _ IH]; cbn [app Num.span_digits].
  - destruct rest as [|c rest]; cbn [Num.span_digits]; auto. now rewrite Hr.
  - unfold digit in Hc. rewrite Hc, IH. reflexivity.
Qed.

Lemma digits_value_bound {ds : jsstring} {acc : Z} :
  Forall digit ds -> (0 <= acc)%Z ->
  (0 <= fold_left (fun a c => 10 * a + Num.digit_value c) ds acc
   < (acc + 1) * 10 ^ Z.of_nat (List.length ds))%Z.
Proof.
  intros Hd. revert acc. induction Hd as [|c ds Hc _ IH]; intros acc Ha.
  - simpl. lia.
  - cbn [fold_left List.length]. rewrite Nat2Z.inj_succ, Z.pow_succ_r by lia.
    apply digit_range in Hc.
    assert (Hv : (0 <= Num.digit_value c <= 9)%Z)
      by (unfold Num.digit_value; lia).
    specialize (IH (10 * acc + Num.digit_value c)%Z ltac:(lia)).
    assert (Hp : (0 < 10 ^ Z.of_nat (List.length ds))%Z)
      by (apply Z.pow_pos_nonneg; lia).
    nia.
Qed.

Lemma digits_value_lt {ds : jsstring} :
  Forall digit ds ->
  (0 <= Num.digits_value ds < 10 ^ Z.of_nat (List.length ds))%Z.
Proof.
  intros Hd. unfold Num.digits_value.
  pose proof (digits_value_bound Hd (Z.le_refl 0)). lia.
Qed.

(** A real below the threshold rounds to a finite Number; no real rounds
    to [NaN]. *)
Lemma round_not_NaN (neg : bool) (num den : Z) :
  Num.round neg num den <> NaN.
Proof.
  unfold Num.round.
  repeat match goal with
         | |- context [if ?b then _ else _] => destruct b
         | |- context [match ?m with Z0 => _ | Zpos _ => _ | Zneg _ => _ end] =>
             destruct m
         end; discriminate.
Qed.

Lemma round_finite (neg : bool) (num den : Z) :
  (num < den * Num.overflow_threshold)%Z ->
  Num.isFinite (Num.round neg num den) = true.
Proof.
  intros H. unfold Num.round.
  destruct (Z.leb_spec num 0); [reflexivity|].
  destruct (Z.leb_spec (den * Num.overflow_threshold) num); [lia|].
  repeat match goal with
         | |- context [if ?b then _ else _] => destruct b
         | |- context [match ?m with Z0 => _ | Zpos _ => _ | Zneg _ => _ end] =>
             destruct m
         end; reflexivity.
Qed.

Lemma round_infinite (neg : bool) (num den : Z) :
  (0 < num)%Z -> (den * Num.overflow_threshold <= num)%Z ->
  Num.round neg num den = S754_infinity neg.
Proof.
  intros H0 H. unfold Num.round.
  destruct (Z.leb_spec num 0); [lia|].
  destruct (Z.leb_spec (den * Num.overflow_threshold) num); [reflexivity|lia].
Qed.

Lemma pow10_308_below_threshold : (10 ^ 308 < Num.overflow_threshold)%Z.
Proof. apply Z.ltb_lt. vm_compute. reflexivity. Qed.

(** What [parseFloat] returns on a number text. *)
Lemma parseFloat_reads {t : jsstring} {neg : bool} {ip fp : jsstring} :
  reads_as t neg ip fp ->
  Num.parseFloat t
  = Num.decimal neg (Num.digits_value (ip ++ fp)) (- Z.of_nat (List.length fp))
  /\ integer_digits t = ip.
Proof.
  intros (Hip & Dip & Dfp & Ht).
  destruct ip as [|d ip]; [congruence|].
  assert (Hd : (48 <= d <= 57)%N) by (inversion Dip; now apply digit_range).
  assert (Hws : is_white_space d = false)
    by (apply number_char_not_space; unfold number_char; lia).
  assert (Hsign : forall tail,
    Num.span_sign (trimStart ((if neg then js "-" else []) ++ (d :: ip) ++ tail))
    = (neg, (d :: ip) ++ tail)
    /\ Num.span_sign ((if neg then js "-" else []) ++ (d :: ip) ++ tail)
       = (neg, (d :: ip) ++ tail)).
  { intros tail. destruct neg; [change (js "-") with [45%N] | ];
      cbn [app trimStart].
    - split; reflexivity.
    - rewrite Hws. unfold Num.span_sign. split; char_cases. }
  assert (Hinf : forall tail,
    strip_prefix (js "Infinity") ((d :: ip) ++ tail) = None).
  { intros tail. change (js "Infinity") with (73%N :: js "nfinity").
    cbn [strip_prefix app].
    destruct (N.eqb_spec 73 d); [lia | reflexivity]. }
  assert (Hgen : forall tail fp',
    Forall digit fp' ->
    tail = [] /\ fp' = [] \/ tail = js "." ++ fp' ->
    Num.parseFloat ((if neg then js "-" else []) ++ (d :: ip) ++ tail)
    = Num.decimal neg (Num.digits_value ((d :: ip) ++ fp'))
        (- Z.of_nat (List.length fp'))
    /\ integer_digits ((if neg then js "-" else []) ++ (d :: ip) ++ tail)
       = d :: ip).
  { intros tail fp' Dfp' Htail. destruct (Hsign tail) as [Hs1 Hs2].
    assert (Hspan : Num.span_digits ((d :: ip) ++ tail) = (d :: ip, tail)).
    { apply span_digits_all; auto.
      destruct Htail as [[-> ->] | ->]; [exact I | reflexivity]. }
    split.
    - unfold Num.parseFloat. rewrite Hs1, Hinf, Hspan.
      destruct Htail as [[-> ->] | ->].
      + rewrite app_nil_r. reflexivity.
      + change (js ".") with [46%N]. cbn [app].
        change (N.eqb 46 46) with true. cbv iota.
        rewrite <- (app_nil_r fp') at 1.
        rewrite span_digits_all by (auto; exact I).
        reflexivity.
    - unfold integer_digits. rewrite Hs2. cbn [snd]. now rewrite Hspan. }
  destruct Ht as [[-> ->] | ->].
  - specialize (Hgen [] [] (Forall_nil _) (or_introl (conj eq_refl eq_refl))).
    rewrite !app_nil_r in Hgen. rewrite !app_nil_r. exact Hgen.
  - exact (Hgen (js "." ++ fp) fp Dfp (or_intror eq_refl)).
Qed.

(** Number texts do not parse as [NaN], and a number text with at most
    308 digits before the point parses as a finite Number. *)
Lemma parseFloat_number_not_NaN (t : jsstring) :
  coordinate_number t -> Num.parseFloat t <> NaN.
Proof.
  intros H. destruct (coordinate_number_reads H) as (neg & ip & fp & R).
  destruct (parseFloat_reads R) as [-> _]. unfold Num.decimal.
  destruct (0 <=? _)%Z; apply round_not_NaN.
Qed.

Lemma parseFloat_number_finite (t : jsstring) :
  coordinate_number t ->
  (List.length (integer_digits t) <= 308)%nat ->
  Num.isFinite (Num.parseFloat t) = true.
Proof.
  intros H. destruct (coordinate_number_reads H) as (neg & ip & fp & R).
  destruct (parseFloat_reads R) as [-> ->]. intros Hlen.
  destruct R as (Hip & Dip & Dfp & _).
  assert (Dall : Forall digit (ip ++ fp)) by (apply Forall_app; auto).
  pose proof (digits_value_lt Dall) as Hv.
  rewrite length_app, Nat2Z.inj_add, Z.pow_add_r in Hv by lia.
  pose proof pow10_308_below_threshold as Hthr.
  assert (Hip308 : (10 ^ Z.of_nat (List.length ip) <= 10 ^ 308)%Z)
    by (apply Z.pow_le_mono_r; lia).
  assert (Hfp : (0 < 10 ^ Z.of_nat (List.length fp))%Z)
    by (apply Z.pow_pos_nonneg; lia).
  unfold Num.decimal.
  destruct (Z.leb_spec 0 (- Z.of_nat (List.length fp))) as [Hz | Hz].
  - assert (Hz0 : Z.of_nat (List.length fp) = 0%Z) by lia.
    rewrite Hz0 in *. change (- 0)%Z with 0%Z.
    apply round_finite. nia.
  - rewrite Z.opp_involutive. apply round_finite. nia.
Qed.

End NumberTexts.

(* ================================================================== *)
(** ** The coordinate parser *)
(* ================================================================== *)

Section Parser.

Lemma nonempty_ends {t : jsstring} {P : code_unit -> Prop} :
  t <> [] -> Forall P t ->
  exists c u v d, t = c :: u /\ t = v ++ [d] /\ P c /\ P d.
Proof.
  intros Hn HP. destruct (exists_last Hn) as (v & d & Hv).
  destruct t as [|c u]; [congruence|].
  exists c, u, v, d. repeat split; auto.
  - now inversion HP.
  - rewrite Hv in HP. apply Forall_app in HP as [_ HP]. now inversion HP.
Qed.

(** The two parts that the parser splits an accepted string into are,
    once trimmed, the two number texts. *)
Lemma accepted_parts {s a b : jsstring} :
  trim s = a ++ js "," ++ b ->
  coordinate_number a -> coordinate_number b ->
  List.map trim (split 44%N s) = [a; b].
Proof.
  intros Ht Ha Hb.
  destruct (trim_spec s) as (l & r & Hs & Hl & Hr).
  destruct (coordinate_number_chars Ha) as [Ca Na].
  destruct (coordinate_number_chars Hb) as [Cb Nb].
  rewrite Ht in Hs.
  assert (Hs' : s = (l ++ a) ++ 44%N :: (b ++ r)).
  { rewrite Hs. change (js ",") with [44%N]. now rewrite <- !app_assoc. }
  rewrite Hs', split_one_separator.
  - cbn [List.map].
    destruct (nonempty_ends Na Ca) as (c & u & v & d & E1 & E2 & Pc & Pd).
    destruct (nonempty_ends Nb Cb) as (c' & u' & v' & d' & E1' & E2' & Pc' & Pd').
    rewrite <- (app_nil_r a) at 1.
    rewrite (@trim_surrounded l [] a c d u v Hl (Forall_nil _) E1 E2)
      by now apply number_char_not_space.
    change (b ++ r) with ([] ++ b ++ r).
    rewrite (@trim_surrounded [] r b c' d' u' v' (Forall_nil _) Hr E1' E2')
      by now apply number_char_not_space.
    reflexivity.
  - apply Forall_app. split.
    + revert Hl. apply Forall_impl. exact white_space_not_comma.
    + revert Ca. apply Forall_impl. exact number_char_not_comma.
  - apply Forall_app. split.
    + revert Cb. apply Forall_impl. exact number_char_not_comma.
    + revert Hr. apply Forall_impl. exact white_space_not_comma.
Qed.

Lemma parseCoordinates_parts (s : jsstring) :
  parseCoordinates (VStr s)
  = match List.map trim (split 44%N s) with
    | [a; b] =>
        if Num.isFinite (Num.parseFloat a) && Num.isFinite (Num.parseFloat b)
        then Ok {| lat := Num.parseFloat a; lon := Num.parseFloat b |}
        else Throw InvalidCoordinateFormat
    | _ => Throw InvalidCoordinateFormat
    end.
Proof.
  unfold parseCoordinates. rewrite <- (map_map trim Num.parseFloat).
  destruct (List.map trim (split 44%N s)) as [|a [|b [|c l]]]; try reflexivity.
  cbn [List.map List.length Nat.eqb negb orb forallb part nth].
  rewrite andb_true_r.
  now destruct (Num.isFinite (Num.parseFloat a) && Num.isFinite (Num.parseFloat b)).
Qed.


End Parser.

(** *** C3 *)

(** C3: the parser fails with [InvalidCoordinateFormat] exactly when the
    split on commas does not give two parts or some trimmed part does not
    parse as a finite number; otherwise it returns the first value as the
    latitude and the second as the longitude.  ["40.0,-73.0"] gives
    latitude 40 and longitude -73; ["abc,def"] and ["1,2,3"] fail. *)
Theorem parseCoordinates_fails_iff (s : jsstring) :
  let parts := split 44%N s in
  (parseCoordinates (VStr s) = Throw InvalidCoordinateFormat
   <-> List.length parts <> 2%nat
       \/ Exists (fun p => Num.isFinite (Num.parseFloat (trim p)) = false)
            parts)
  /\ (parseCoordinates (VStr s) = Throw InvalidCoordinateFormat
      \/ exists p1 p2,
           parts = [p1; p2]
           /\ parseCoordinates (VStr s)
              = Ok {| lat := Num.parseFloat (trim p1);
                      lon := Num.parseFloat (trim p2) |})
  /\ parseCoordinates (VStr (js "40.0,-73.0"))
     = Ok {| lat := Num.of_Z 40; lon := Num.of_Z (-73) |}
  /\ parseCoordinates (VStr (js "abc,def")) = Throw InvalidCoordinateFormat
  /\ parseCoordinates (VStr (js "1,2,3")) = Throw InvalidCoordinateFormat.
Proof.
  intros parts. rewrite parseCoordinates_parts. subst parts.
  split; [|split; [|repeat apply conj; vm_compute; reflexivity]].
  - destruct (split 44%N s) as [|p1 [|p2 [|p3 l]]]; cbn [List.map List.length].
    + split; [intros _; left; simpl; lia | reflexivity].
    + split; [intros _; left; simpl; lia | reflexivity].
    + destruct (Num.isFinite (Num.parseFloat (trim p1))) eqn:E1;
        destruct (Num.isFinite (Num.parseFloat (trim p2))) eqn:E2;
        cbn [andb].
      * split; [discriminate|].
        intros [H | H]; [congruence|].
        inversion H as [? ? H1 | ? ? H1]; subst; [congruence|].
        inversion H1 as [? ? H2 | ? ? H2]; subst; [congruence|].
        inversion H2.
      * split; [intros _ | reflexivity].
        right. apply Exists_cons_tl, Exists_cons_hd. exact E2.
      * split; [intros _ | reflexivity].
        right. apply Exists_cons_hd. exact E1.
      * split; [intros _ | reflexivity].
        right. apply Exists_cons_hd. exact E1.
    + split; [intros _; left; simpl; lia | reflexivity].
  - destruct (split 44%N s) as [|p1 [|p2 [|p3 l]]]; cbn [List.map]; auto.
    destruct (Num.isFinite (Num.parseFloat (trim p1))
              && Num.isFinite (Num.parseFloat (trim p2))); auto.
    right. now exists p1, p2.
Qed.

(** *** C10 *)

(** C10 as stated fails: the classifier accepts a one followed by 309
    zeros, which [parseFloat] reads as [Infinity], and the parser throws. *)
Lemma accepted_number_overflows :
  ~ (forall s : jsstring,
       isCoordinates (VStr s) = Ok true ->
       exists c, parseCoordinates (VStr s) = Ok c).
Proof.
  intros H. destruct (H (one_and_zeros 309 ++ js ",0")) as [c Hc].
  - vm_compute. reflexivity.
  - vm_compute in Hc. discriminate Hc.
Qed.

(** C10, amended: on every string that the classifier accepts the split
    gives exactly the two number texts and neither parses as [NaN]; the
    parser returns the pair whenever both values are finite, which is so
    whenever each number has at most 308 digits before its decimal
    point. *)
Theorem accepted_coordinates_parse (s : jsstring) :
  isCoordinates (VStr s) = Ok true ->
  exists a b,
    trim s = a ++ js "," ++ b
    /\ List.map trim (split 44%N s) = [a; b]
    /\ Num.parseFloat a <> NaN /\ Num.parseFloat b <> NaN
    /\ (Num.isFinite (Num.parseFloat a) = true ->
        Num.isFinite (Num.parseFloat b) = true ->
        parseCoordinates (VStr s)
        = Ok {| lat := Num.parseFloat a; lon := Num.parseFloat b |})
    /\ ((List.length (integer_digits a) <= 308)%nat ->
        (List.length (integer_digits b) <= 308)%nat ->
        parseCoordinates (VStr s)
        = Ok {| lat := Num.parseFloat a; lon := Num.parseFloat b |}).
Proof.
  intros H. apply isCoordinates_true in H.
  destruct H as (a & b & Ht & Ha & Hb).
  exists a, b.
  pose proof (accepted_parts Ht Ha Hb) as Hp.
  assert (Hfin : Num.isFinite (Num.parseFloat a) = true ->
                 Num.isFinite (Num.parseFloat b) = true ->
                 parseCoordinates (VStr s)
                 = Ok {| lat := Num.parseFloat a; lon := Num.parseFloat b |}).
  { intros Fa Fb. rewrite parseCoordinates_parts, Hp, Fa, Fb. reflexivity. }
  repeat split; auto using parseFloat_number_not_NaN.
  intros La Lb. apply Hfin; now apply parseFloat_number_finite.
Qed.

Lemma accepted_coordinates_parse_witness :
  exists a b,
    trim (js " 40.0,-73.0") = a ++ js "," ++ b
    /\ parseCoordinates (VStr (js " 40.0,-73.0"))
       = Ok {| lat := Num.parseFloat a; lon := Num.parseFloat b |}.
Proof.
  destruct (@accepted_coordinates_parse (js " 40.0,-73.0") eq_refl)
    as (a & b & Ht & Hp & _ & _ & _ & H).
  exists a, b. split; [exact Ht|]. injection Hp as <- <-.
  apply H; vm_compute; lia.
Defined.

(* ================================================================== *)
(** ** Running handler programs *)
(* ================================================================== *)

Section Running.

Context {W : Type} (env : environment W).

Lemma run_pbind {A B} (m : prog A) (f : A -> prog B) (w : W) :
  run env (pbind m f) w
  = (outcome env (f (outcome env m w)) (state_after env m w),
     trace env m w ++ trace env (f (outcome env m w)) (state_after env m w),
     state_after env (f (outcome env m w)) (state_after env m w)).
Proof.
  revert w. induction m as [a | X c k IH]; intros w.
  - unfold outcome, trace, state_after. simpl.
    now destruct (run env (f a) w) as [[b t] w'].
  - unfold outcome, trace, state_after in *. simpl.
    destruct (env X c w) as [x w1]. rewrite IH.
    now destruct (run env (k x) w1) as [[a t] w2].
Qed.

Lemma outcome_pbind {A B} (m : prog A) (f : A -> prog B) (w : W) :
  outcome env (pbind m f) w
  = outcome env (f (outcome env m w)) (state_after env m w).
Proof. unfold outcome at 1. now rewrite run_pbind. Qed.

Lemma trace_pbind {A B} (m : prog A) (f : A -> prog B) (w : W) :
  trace env (pbind m f) w
  = trace env m w ++ trace env (f (outcome env m w)) (state_after env m w).
Proof. unfold trace at 1. now rewrite run_pbind. Qed.

Lemma state_after_pbind {A B} (m : prog A) (f : A -> prog B) (w : W) :
  state_after env (pbind m f) w
  = state_after env (f (outcome env m w)) (state_after env m w).
Proof. unfold state_after at 1. now rewrite run_pbind. Qed.

Lemma run_pure {A} (m : prog A) (w : W) :
  pure m -> trace env m w = [] /\ state_after env m w = w.
Proof. intros [a ->]. split; reflexivity. Qed.

Lemma trace_calls_once {A X} (c : call X) (m : prog A) (w : W) :
  calls_once c m -> trace env m w = [Event c (fst (env X c w))].
Proof.
  intros (k & -> & Hk). unfold trace. simpl.
  destruct (env X c w) as [x w1]. simpl.
  destruct (Hk x) as [a ->]. reflexivity.
Qed.

Lemma outcome_iobind {A B} (m : io A) (f : A -> io B) (w : W) :
  outcome env (iobind m f) w
  = match outcome env m w with
    | Ok a => outcome env (f a) (state_after env m w)
    | Throw e => Throw e
    end.
Proof.
  unfold iobind. rewrite outcome_pbind. now destruct (outcome env m w).
Qed.

Lemma trace_iobind {A B} (m : io A) (f : A -> io B) (w : W) :
  trace env (iobind m f) w
  = trace env m w
    ++ match outcome env m w with
       | Ok a => trace env (f a) (state_after env m w)
       | Throw e => []
       end.
Proof.
  unfold iobind. rewrite trace_pbind. now destruct (outcome env m w).
Qed.

Lemma state_after_iobind {A B} (m : io A) (f : A -> io B) (w : W) :
  state_after env (iobind m f) w
  = match outcome env m w with
    | Ok a => state_after env (f a) (state_after env m w)
    | Throw e => state_after env m w
    end.
Proof.
  unfold iobind. rewrite state_after_pbind. now destruct (outcome env m w).
Qed.

Lemma outcome_try_catch {A} (m : io A) (h : exn -> io A) (w : W) :
  outcome env (try_catch m h) w
  = match outcome env m w with
    | Ok a => Ok a
    | Throw e => outcome env (h e) (state_after env m w)
    end.
Proof.
  unfold try_catch. rewrite outcome_pbind. now destruct (outcome env m w).
Qed.

Lemma trace_try_catch {A} (m : io A) (h : exn -> io A) (w : W) :
  trace env (try_catch m h) w
  = trace env m w
    ++ match outcome env m w with
       | Ok a => []
       | Throw e => trace env (h e) (state_after env m w)
       end.
Proof.
  unfold try_catch. rewrite trace_pbind. now destruct (outcome env m w).
Qed.

(** With a stateless environment the result of a program does not depend
    on the state it starts from. *)
Lemma outcome_stateless {A} (m : prog A) (w w' : W) :
  stateless env -> outcome env m w = outcome env m w'.
Proof.
  intros Hs. revert w w'. induction m as [a | X c k IH]; intros w w'.
  - reflexivity.
  - unfold outcome in *. simpl. pose proof (Hs X c w w') as Hx.
    destruct (env X c w) as [x w1], (env X c w') as [x' w1'].
    simpl in Hx. subst x'. specialize (IH x w1 w1').
    now destruct (run env (k x) w1) as [[a t] w2],
                 (run env (k x) w1') as [[a' t'] w2'].
Qed.

End Running.

Section Purity.

Lemma pure_ret {A} (a : A) : pure (Ret a).
Proof. now exists a. Qed.

Lemma pure_iobind {A B} {m : io A} {f : A -> io B} :
  pure m -> (forall a, pure (f a)) -> pure (iobind m f).
Proof.
  intros [[a | e] ->] Hf; simpl; [apply Hf | apply pure_ret].
Qed.

Lemma pure_try_catch {A} {m : io A} {h : exn -> io A} :
  pure m -> (forall e, pure (h e)) -> pure (try_catch m h).
Proof.
  intros [[a | e] ->] Hh; simpl; [apply pure_ret | apply Hh].
Qed.

Lemma pure_if {A} (b : bool) (m1 m2 : prog A) :
  pure m1 -> pure m2 -> pure (if b then m1 else m2).
Proof. now destruct b. Qed.

Lemma calls_once_iobind {A B X} (c : call X) (m : io A) (f : A -> io B) :
  calls_once c m -> (forall a, pure (f a)) -> calls_once c (iobind m f).
Proof.
  intros (k & -> & Hk) Hf. eexists. split; [reflexivity|].
  intros x. apply (pure_iobind (Hk x) Hf).
Qed.

Lemma calls_once_try_catch {A X} (c : call X) (m : io A) (h : exn -> io A) :
  calls_once c m -> (forall e, pure (h e)) -> calls_once c (try_catch m h).
Proof.
  intros (k & -> & Hk) Hh. eexists. split; [reflexivity|].
  intros x. apply (pure_try_catch (Hk x) Hh).
Qed.

Lemma calls_once_fetch (url : jsstring) (ua : option jsstring) :
  calls_once (Fetch url ua) (fetch url ua).
Proof.
  eexists. split; [reflexivity|]. intros [e | ok json]; apply pure_ret.
Qed.

End Purity.

Ltac purity :=
  unfold lift, ret, throw;
  repeat first
    [ apply pure_ret
    | apply pure_iobind; [|intros ?]
    | apply pure_if
    | match goal with
      | |- pure (match ?x with _ => _ end) => destruct x
      end ].

(* ================================================================== *)
(** ** The calls that each piece of the handlers makes *)
(* ================================================================== *)

Section Shapes.

(** The geocoding client makes one request, for the URL of its argument,
    or none when that URL can not be built. *)
Lemma geocodePlace_shape (placeName : value) :
  match geocode_url placeName with
  | Ok url => calls_once (Fetch url (Some USER_AGENT)) (geocodePlace placeName)
  | Throw _ => pure (geocodePlace placeName)
  end.
Proof.
  unfold geocodePlace. destruct (geocode_url placeName) as [url | e].
  - apply calls_once_try_catch.
    + cbn [lift iobind pbind]. apply calls_once_iobind.
      * apply calls_once_fetch.
      * intros [ok json]. purity.
    + intros e. purity.
  - apply pure_try_catch.
    + purity.
    + intros e'. purity.
Qed.

(** Resolving a location makes no call, unless the classifier answered
    [false]: then it makes the one request of the geocoding client. *)
Lemma resolve_shape (input : value) :
  pure (resolve input)
  \/ (isCoordinates input = Ok false
      /\ exists url, geocode_url input = Ok url
                     /\ calls_once (Fetch url (Some USER_AGENT))
                          (resolve input)).
Proof.
  unfold resolve. pose proof (geocodePlace_shape input) as G.
  destruct (isCoordinates input) as [[|] | e]; cbn [lift iobind pbind].
  - left. purity.
  - destruct (geocode_url input) as [url | e].
    + right. split; [reflexivity|]. exists url. split; [reflexivity|].
      apply calls_once_iobind; [exact G | intros a; purity].
    + left. apply pure_iobind; [exact G | intros a; purity].
  - left. purity.
Qed.

Lemma request_route_shape (startCoords endCoords : jsstring) :
  calls_once (Fetch (route_url startCoords endCoords) None)
    (request_route startCoords endCoords).
Proof.
  unfold request_route. apply calls_once_iobind.
  - apply calls_once_fetch.
  - intros [ok json]. purity.
Qed.

End Shapes.

(* ================================================================== *)
(** ** [GET /route] *)
(* ================================================================== *)

Section Route.

Context {W : Type} (env : environment W).

Lemma services_differ (x y : jsstring) :
  NOMINATIM_BASE ++ x <> OSRM_BASE ++ y.
Proof. intros H. vm_compute in H. discriminate H. Qed.

Lemma route_url_to_routing_service (sc ec : jsstring) :
  to_routing_service (route_url sc ec).
Proof. eexists. reflexivity. Qed.

Lemma geocode_url_to_geocoding_service (p : value) (url : jsstring) :
  geocode_url p = Ok url -> to_geocoding_service url.
Proof.
  unfold geocode_url. destruct (bind (to_string p) encodeURIComponent);
    simpl; intros [= <-]. eexists. reflexivity.
Qed.

(** The requests of one resolution step. *)
Lemma resolve_events (input : value) (w : W) (e : event) :
  In e (trace env (resolve input) w) ->
  isCoordinates input = Ok false
  /\ exists url, geocode_url input = Ok url
                 /\ request_of e = Some (url, Some USER_AGENT).
Proof.
  destruct (resolve_shape input) as [P | (Hc & url & Hu & C)].
  - destruct (run_pure env _ w P) as [-> _]. intros [].
  - rewrite (trace_calls_once env _ _ w C). intros [<- | []].
    split; [exact Hc|]. exists url. split; [exact Hu | reflexivity].
Qed.

(** The body of the handler that runs once both parameters are there. *)
Lemma route_handler_present (start end_ : value) :
  truthy start = true -> truthy end_ = true ->
  route_handler start end_
  = try_catch
      (iobind (resolve start) (fun startCoords =>
       iobind (resolve end_) (fun endCoords =>
       request_route startCoords endCoords)))
      (fun err => ret (error_response 500 (message_or_default err))).
Proof. intros Hs He. unfold route_handler. now rewrite Hs, He. Qed.

(** Every request that the handler makes is the geocoding request for a
    parameter that the classifier rejected, or the routing request for the
    two resolved coordinate strings. *)
Lemma route_handler_events (start end_ : value) (w : W) (e : event) :
  In e (trace env (route_handler start end_) w) ->
  (exists input url,
      (input = start \/ input = end_)
      /\ isCoordinates input = Ok false
      /\ geocode_url input = Ok url
      /\ request_of e = Some (url, Some USER_AGENT))
  \/ (exists sc ec w1 w2,
         outcome env (resolve start) w1 = Ok sc
         /\ outcome env (resolve end_) w2 = Ok ec
         /\ request_of e = Some (route_url sc ec, None)).
Proof.
  destruct (truthy start) eqn:Hs; [destruct (truthy end_) eqn:He|].
  - rewrite (route_handler_present _ _ Hs He).
    rewrite trace_try_catch, trace_iobind.
    intros H. apply in_app_or in H. destruct H as [H | H].
    + apply in_app_or in H. destruct H as [H | H].
      * left. apply resolve_events in H. destruct H as (Hc & url & Hu & Hr).
        exists start, url. auto.
      * destruct (outcome env (resolve start) w) as [sc | ?] eqn:Es;
          [|destruct H].
        rewrite trace_iobind in H. apply in_app_or in H. destruct H as [H | H].
        -- left. apply resolve_events in H.
           destruct H as (Hc & url & Hu & Hr). exists end_, url. auto.
        -- destruct (outcome env (resolve end_) _) as [ec | ?] eqn:Ee;
             [|destruct H].
           rewrite (trace_calls_once env _ _ _ (request_route_shape sc ec)) in H.
           destruct H as [<- | []]. right.
           exists sc, ec, w, (state_after env (resolve start) w). auto.
    + destruct (outcome env _ w); [destruct H|].
      unfold ret in H. destruct H.
  - unfold route_handler. rewrite Hs, He. simpl. intros [].
  - unfold route_handler. rewrite Hs. simpl. intros [].
Qed.

Lemma route_handler_outcome (start end_ : value) (w : W) :
  truthy start = true -> truthy end_ = true ->
  outcome env (route_handler start end_) w
  = Ok match outcome env (resolve start) w with
       | Throw e => error_response 500 (message_or_default e)
       | Ok sc =>
           let w1 := state_after env (resolve start) w in
           match outcome env (resolve end_) w1 with
           | Throw e => error_response 500 (message_or_default e)
           | Ok ec =>
               let w2 := state_after env (resolve end_) w1 in
               match outcome env (request_route sc ec) w2 with
               | Throw e => error_response 500 (message_or_default e)
               | Ok r => r
               end
           end
       end.
Proof.
  intros Hs He. rewrite (route_handler_present _ _ Hs He).
  rewrite outcome_try_catch, outcome_iobind.
  destruct (outcome env (resolve start) w) as [sc | e]; [|reflexivity].
  rewrite outcome_iobind. cbv zeta.
  destruct (outcome env (resolve end_) _) as [ec | e]; [|reflexivity].
  now destruct (outcome env (request_route sc ec) _).
Qed.

(** The same for the handler that resolves [end] first. *)
Lemma route_handler_end_first_outcome (start end_ : value) (w : W) :
  truthy start = true -> truthy end_ = true ->
  outcome env (route_handler_end_first start end_) w
  = Ok match outcome env (resolve end_) w with
       | Throw e => error_response 500 (message_or_default e)
       | Ok ec =>
           let w1 := state_after env (resolve end_) w in
           match outcome env (resolve start) w1 with
           | Throw e => error_response 500 (message_or_default e)
           | Ok sc =>
               let w2 := state_after env (resolve start) w1 in
               match outcome env (request_route sc ec) w2 with
               | Throw e => error_response 500 (message_or_default e)
               | Ok r => r
               end
           end
       end.
Proof.
  intros Hs He. unfold route_handler_end_first. rewrite Hs, He.
  cbn [negb orb]. rewrite outcome_try_catch, outcome_iobind.
  destruct (outcome env (resolve end_) w) as [ec | e]; [|reflexivity].
  rewrite outcome_iobind. cbv zeta.
  destruct (outcome env (resolve start) _) as [sc | e]; [|reflexivity].
  now destruct (outcome env (request_route sc ec) _).
Qed.

(** A coordinate string is resolved without any call: to the two parsed
    values, longitude first, or to the parser's exception. *)
Lemma resolve_coordinates (s a b : jsstring) :
  trim s = a ++ js "," ++ b ->
  coordinate_number a -> coordinate_number b ->
  resolve (VStr s)
  = Ret (if Num.isFinite (Num.parseFloat a) && Num.isFinite (Num.parseFloat b)
         then Ok (lon_lat (Num.parseFloat b) (Num.parseFloat a))
         else Throw InvalidCoordinateFormat).
Proof.
  intros Ht Ha Hb. unfold resolve.
  assert (Hc : isCoordinates (VStr s) = Ok true).
  { apply isCoordinates_true. now exists a, b. }
  rewrite Hc. cbn [lift iobind pbind].
  rewrite parseCoordinates_parts, (accepted_parts Ht Ha Hb).
  now destruct (Num.isFinite (Num.parseFloat a)
                && Num.isFinite (Num.parseFloat b)).
Qed.

End Route.

Section RouteClaims.

Context {W : Type} (env : environment W).

(** *** C1 *)

(** C1: when a parameter of [/route] is a coordinate string ["lat,lon"]
    that the classifier accepts, every request that the handler sends to
    the routing service carries, in the position of that parameter, the
    two parsed values in the order longitude, latitude: the string
    [`${lon},${lat}`] of the Number values of the two texts. *)
Theorem route_coordinates_swapped (w : W) (s a b : jsstring) (other : value)
  (e : event) (url : jsstring) (ua : option jsstring) :
  trim s = a ++ js "," ++ b ->
  coordinate_number a -> coordinate_number b ->
  request_of e = Some (url, ua) -> to_routing_service url ->
  (In e (trace env (route_handler (VStr s) other) w) ->
   exists endCoords,
     url = route_url (lon_lat (Num.parseFloat b) (Num.parseFloat a)) endCoords)
  /\ (In e (trace env (route_handler other (VStr s)) w) ->
      exists startCoords,
        url = route_url startCoords
                (lon_lat (Num.parseFloat b) (Num.parseFloat a))).
Proof.
  intros Ht Ha Hb Hreq [rest Hurl].
  assert (Hresolved : forall w' c, outcome env (resolve (VStr s)) w' = Ok c ->
                                   c = lon_lat (Num.parseFloat b) (Num.parseFloat a)).
  { intros w' c. rewrite (resolve_coordinates _ _ _ Ht Ha Hb).
    unfold outcome. cbn [run fst].
    destruct (Num.isFinite _ && Num.isFinite _); congruence. }
  assert (Hgeo : forall input u,
             geocode_url input = Ok u ->
             request_of e = Some (u, Some USER_AGENT) -> False).
  { intros input u Hu Hr. rewrite Hreq in Hr. injection Hr as <- _.
    destruct (geocode_url_to_geocoding_service _ _ Hu) as [rest' Hu'].
    rewrite Hurl in Hu'. symmetry in Hu'. exact (services_differ _ _ Hu'). }
  split; intros Hin; apply route_handler_events in Hin;
    destruct Hin as [(input & u & _ & _ & Hu & Hr)
                    | (sc & ec & w1 & w2 & Hsc & Hec & Hr)];
    try (exfalso; exact (Hgeo input u Hu Hr));
    rewrite Hreq in Hr; injection Hr as -> _.
  - apply Hresolved in Hsc. subst sc. now exists ec.
  - apply Hresolved in Hec. subst ec. now exists sc.
Qed.

(** When both parameters are coordinate strings with finite values, the
    handler makes exactly one outbound call: the routing request for the
    two swapped pairs. *)
Lemma route_between_coordinates (w : W) (s1 a1 b1 s2 a2 b2 : jsstring) :
  trim s1 = a1 ++ js "," ++ b1 -> coordinate_number a1 -> coordinate_number b1 ->
  trim s2 = a2 ++ js "," ++ b2 -> coordinate_number a2 -> coordinate_number b2 ->
  Num.isFinite (Num.parseFloat a1) = true ->
  Num.isFinite (Num.parseFloat b1) = true ->
  Num.isFinite (Num.parseFloat a2) = true ->
  Num.isFinite (Num.parseFloat b2) = true ->
  List.map request_of (trace env (route_handler (VStr s1) (VStr s2)) w)
  = [Some (route_url (lon_lat (Num.parseFloat b1) (Num.parseFloat a1))
                     (lon_lat (Num.parseFloat b2) (Num.parseFloat a2)),
           None)].
Proof.
  intros T1 A1 B1 T2 A2 B2 Fa1 Fb1 Fa2 Fb2.
  assert (N1 : truthy (VStr s1) = true).
  { destruct s1; [|reflexivity]. destruct a1; discriminate T1. }
  assert (N2 : truthy (VStr s2) = true).
  { destruct s2; [|reflexivity]. destruct a2; discriminate T2. }
  rewrite (route_handler_present _ _ N1 N2).
  rewrite (resolve_coordinates _ _ _ T1 A1 B1), Fa1, Fb1.
  rewrite (resolve_coordinates _ _ _ T2 A2 B2), Fa2, Fb2.
  cbn [andb iobind pbind]. rewrite trace_try_catch.
  rewrite (trace_calls_once env _ _ _ (request_route_shape _ _)).
  destruct (outcome env _ w); reflexivity.
Qed.

(** A 200 response of the routing step echoes the two coordinate strings
    that were sent. *)
Lemma request_route_echoes (w : W) (sc ec : jsstring) (r : response) :
  outcome env (request_route sc ec) w = Ok r -> status r = 200%Z ->
  exists distance duration geometry,
    body r = VObj [(js "distance_meters", distance);
                   (js "duration_seconds", duration);
                   (js "geometry", geometry);
                   (js "start_coords", VStr sc);
                   (js "end_coords", VStr ec)].
Proof.
  unfold outcome, request_route, fetch. cbn [iobind pbind run].
  destruct (env _ _ w) as [[e | ok json] w1]; cbn [throw ret pbind run fst];
    [discriminate|].
  destruct ok; cbn [negb]; [|intros [= <-]; discriminate].
  unfold lift, ret. cbn [iobind pbind].
  repeat match goal with
         | |- context [match ?x with Ok _ => _ | Throw _ => _ end] =>
             destruct x
         | |- context [if ?b then _ else _] => destruct b
         end;
    cbn [run fst]; intros [= <-]; try discriminate; intros _;
    do 3 eexists; reflexivity.
Qed.

Lemma own_start_coords (distance duration geometry sc ec : value) :
  own (js "start_coords")
      [(js "distance_meters", distance); (js "duration_seconds", duration);
       (js "geometry", geometry); (js "start_coords", sc);
       (js "end_coords", ec)]
  = Some sc.
Proof. vm_compute. reflexivity. Qed.

(** With [start] an accepted coordinate string, a 200 response carries
    the swapped pair as [start_coords]. *)
Lemma route_response_echoes_start (w : W) (s a b : jsstring) (other : value)
  (r : response) :
  trim s = a ++ js "," ++ b ->
  coordinate_number a -> coordinate_number b ->
  outcome env (route_handler (VStr s) other) w = Ok r -> status r = 200%Z ->
  own (js "start_coords")
      (match body r with VObj fields => fields | _ => [] end)
  = Some (VStr (lon_lat (Num.parseFloat b) (Num.parseFloat a))).
Proof.
  intros Ht Ha Hb Hr H200.
  destruct (truthy (VStr s)) eqn:Hs; [destruct (truthy other) eqn:Ho|].
  - rewrite (route_handler_outcome env _ _ w Hs Ho) in Hr.
    rewrite (resolve_coordinates _ _ _ Ht Ha Hb) in Hr.
    unfold outcome at 1 in Hr. unfold state_after at 1 2 in Hr.
    cbn [run fst snd] in Hr.
    destruct (Num.isFinite _ && Num.isFinite _);
      [|injection Hr as <-; discriminate].
    cbv zeta in Hr.
    destruct (outcome env (resolve other) w) as [ec | e];
      [|injection Hr as <-; discriminate].
    destruct (outcome env (request_route _ ec) _) as [r' | e] eqn:Er;
      [|injection Hr as <-; discriminate].
    injection Hr as ->.
    destruct (request_route_echoes _ _ _ _ Er H200) as (d & t & g & ->).
    apply own_start_coords.
  - unfold route_handler in Hr. rewrite Hs, Ho in Hr.
    injection Hr as <-. discriminate.
  - unfold route_handler in Hr. rewrite Hs in Hr.
    injection Hr as <-. discriminate.
Qed.

(** *** C9 *)

(** C9: every request that the [/route] handler sends to the geocoding
    service is the request for one of its two parameters, and the
    classifier returned [false] on that parameter; resolving a parameter
    that the classifier recognizes as coordinates makes no call at all. *)
Theorem geocoding_only_for_place_names (w : W) (start end_ : value) :
  (forall e url ua,
      In e (trace env (route_handler start end_) w) ->
      request_of e = Some (url, ua) -> to_geocoding_service url ->
      exists input,
        (input = start \/ input = end_)
        /\ isCoordinates input = Ok false
        /\ geocode_url input = Ok url)
  /\ (forall input w',
        isCoordinates input = Ok true ->
        trace env (resolve input) w' = []).
Proof.
  split.
  - intros e url ua Hin Hreq [rest Hurl]. apply route_handler_events in Hin.
    destruct Hin as [(input & u & Hi & Hc & Hu & Hr)
                    | (sc & ec & w1 & w2 & _ & _ & Hr)].
    + rewrite Hreq in Hr. injection Hr as -> _. now exists input.
    + rewrite Hreq in Hr. injection Hr as -> _. exfalso.
      destruct (route_url_to_routing_service sc ec) as [rest' Hr'].
      rewrite Hurl in Hr'. exact (services_differ _ _ Hr').
  - intros input w' Hc.
    destruct (resolve_shape input) as [P | (Hf & _)]; [|congruence].
    exact (proj1 (run_pure env _ w' P)).
Qed.

(** *** C5 *)

(** C5: when [start] or [end] is absent or empty the handler answers 400
    with the error ["start and end required"] and makes no outbound
    call. *)
Theorem route_missing_parameter (w : W) (start end_ : value) :
  absent_or_empty start \/ absent_or_empty end_ ->
  run env (route_handler start end_) w
  = (Ok (error_response 400 (js "start and end required")), [], w).
Proof.
  intros H. unfold route_handler.
  assert (Hc : negb (truthy start) || negb (truthy end_) = true).
  { destruct H as [[-> | ->] | [-> | ->]]; cbn [truthy negb orb];
      auto using orb_true_r. }
  rewrite Hc. reflexivity.
Qed.

(** *** C4 *)

Lemma request_route_rejected (w : W) (sc ec : jsstring) (err : exn) :
  fst (env _ (Fetch (route_url sc ec) None) w) = Rejected err ->
  outcome env (request_route sc ec) w = Throw err.
Proof.
  intros H. unfold outcome, request_route, fetch. cbn [iobind pbind run].
  destruct (env _ _ w) as [x w1]. cbn [fst] in H. subst x. reflexivity.
Qed.

Lemma request_route_not_ok (w : W) (sc ec : jsstring) (json : result value) :
  fst (env _ (Fetch (route_url sc ec) None) w) = Response false json ->
  outcome env (request_route sc ec) w
  = Ok (error_response 502 (js "Routing service error")).
Proof.
  intros H. unfold outcome, request_route, fetch. cbn [iobind pbind run].
  destruct (env _ _ w) as [x w1]. cbn [fst] in H. subst x. reflexivity.
Qed.

Lemma request_route_no_routes (w : W) (sc ec : jsstring)
  (fields : list (jsstring * value)) :
  fst (env _ (Fetch (route_url sc ec) None) w)
  = Response true (Ok (VObj fields)) ->
  own (js "routes") fields = None \/ own (js "routes") fields = Some (VArr []) ->
  outcome env (request_route sc ec) w
  = Ok (error_response 404 (js "No route found")).
Proof.
  intros H Hr. unfold outcome, request_route, fetch. cbn [iobind pbind run].
  destruct (env _ _ w) as [x w1]. cbn [fst] in H. subst x.
  cbn [ret lift iobind pbind negb get].
  destruct Hr as [-> | ->]; reflexivity.
Qed.

(** C4, as the code has it: when both locations are resolved and the
    request to the routing service fails in transport (the promise of
    [fetch] rejects), the handler answers 500 with the message of the
    failure, not 502. *)
Theorem route_transport_failure_is_500 (w : W) (start end_ : value)
  (sc ec : jsstring) (err : exn) :
  truthy start = true -> truthy end_ = true ->
  outcome env (resolve start) w = Ok sc ->
  outcome env (resolve end_) (state_after env (resolve start) w) = Ok ec ->
  fst (env _ (Fetch (route_url sc ec) None)
         (state_after env (resolve end_) (state_after env (resolve start) w)))
  = Rejected err ->
  outcome env (route_handler start end_) w
  = Ok (error_response 500 (message_or_default err)).
Proof.
  intros Hs He Hsc Hec Hrej.
  rewrite (route_handler_outcome env _ _ w Hs He), Hsc. cbv zeta.
  rewrite Hec. now rewrite (request_route_rejected _ _ _ _ Hrej).
Qed.

(** The other answers of C4: a response that is not [ok] gives 502, a
    response without routes gives 404. *)
Lemma route_backend_answers (w : W) (start end_ : value) (sc ec : jsstring) :
  truthy start = true -> truthy end_ = true ->
  outcome env (resolve start) w = Ok sc ->
  outcome env (resolve end_) (state_after env (resolve start) w) = Ok ec ->
  let answer :=
    fst (env _ (Fetch (route_url sc ec) None)
           (state_after env (resolve end_)
              (state_after env (resolve start) w))) in
  ((exists json, answer = Response false json) ->
   outcome env (route_handler start end_) w
   = Ok (error_response 502 (js "Routing service error")))
  /\ (answer = Response true (Ok (VObj [(js "routes", VArr [])])) ->
      outcome env (route_handler start end_) w
      = Ok (error_response 404 (js "No route found"))).
Proof.
  intros Hs He Hsc Hec answer. subst answer.
  rewrite (route_handler_outcome env _ _ w Hs He), Hsc. cbv zeta.
  rewrite Hec. split.
  - intros [json H]. now rewrite (request_route_not_ok _ _ _ _ H).
  - intros H. rewrite (request_route_no_routes _ _ _ _ H); [reflexivity|].
    right. reflexivity.
Qed.

(** *** C7 *)

(** C7, amended: with an environment whose answers do not depend on what
    was asked before, resolving [start] first and resolving [end] first
    give the same response whenever at least one of the two resolutions
    succeeds. *)
Theorem resolution_order_irrelevant (w : W) (start end_ : value) :
  stateless env ->
  resolves env w start \/ resolves env w end_ ->
  outcome env (route_handler start end_) w
  = outcome env (route_handler_end_first start end_) w.
Proof.
  intros Hst Hres.
  destruct (truthy start) eqn:Hs; [destruct (truthy end_) eqn:He|].
  - rewrite (route_handler_outcome env _ _ w Hs He).
    rewrite (route_handler_end_first_outcome env _ _ w Hs He). cbv zeta.
    rewrite (outcome_stateless env (resolve end_)
               (state_after env (resolve start) w) w Hst).
    rewrite (outcome_stateless env (resolve start)
               (state_after env (resolve end_) w) w Hst).
    destruct (outcome env (resolve start) w) as [sc | e1] eqn:E1;
      destruct (outcome env (resolve end_) w) as [ec | e2] eqn:E2;
      try reflexivity.
    + now rewrite (outcome_stateless env (request_route sc ec)
                     (state_after env (resolve end_)
                        (state_after env (resolve start) w))
                     (state_after env (resolve start)
                        (state_after env (resolve end_) w)) Hst).
    + destruct Hres as [[c Hc] | [c Hc]]; unfold resolves in *; congruence.
  - unfold route_handler, route_handler_end_first. now rewrite Hs, He.
  - unfold route_handler, route_handler_end_first. now rewrite Hs.
Qed.

End RouteClaims.

(** C7 as stated fails: when the geocoding service finds neither place,
    the response names the place that was resolved first. *)
Lemma resolution_order_observable :
  outcome nothing_found
    (route_handler (VStr (js "Atlantis")) (VStr (js "El Dorado"))) tt
  = Ok (error_response 500
          (js "Geocoding failed for " ++ quoted (js "Atlantis")
           ++ js ": No location found for " ++ quoted (js "Atlantis")))
  /\ outcome nothing_found
       (route_handler_end_first (VStr (js "Atlantis")) (VStr (js "El Dorado")))
       tt
     = Ok (error_response 500
             (js "Geocoding failed for " ++ quoted (js "El Dorado")
              ++ js ": No location found for " ++ quoted (js "El Dorado")))
  /\ outcome nothing_found
       (route_handler (VStr (js "Atlantis")) (VStr (js "El Dorado"))) tt
     <> outcome nothing_found
          (route_handler_end_first (VStr (js "Atlantis"))
             (VStr (js "El Dorado"))) tt.
Proof.
  repeat apply conj; try (vm_compute; reflexivity).
  vm_compute. discriminate.
Qed.

(** The order is observable as well when both resolutions succeed but
    the geocoding service answers its second request differently from its
    first: the two orders exchange the coordinates of [start] and [end]. *)
Lemma resolution_order_observable_with_state :
  outcome moving_target
    (route_handler (VStr (js "here")) (VStr (js "there"))) 0%nat
  = Ok {| status := 200;
          body := VObj [(js "distance_meters", VNum (Num.of_Z 1));
                        (js "duration_seconds", VNum (Num.of_Z 1));
                        (js "geometry", VNull);
                        (js "start_coords", VStr (js "2,1"));
                        (js "end_coords", VStr (js "4,3"))] |}
  /\ outcome moving_target
       (route_handler_end_first (VStr (js "here")) (VStr (js "there"))) 0%nat
     = Ok {| status := 200;
             body := VObj [(js "distance_meters", VNum (Num.of_Z 1));
                           (js "duration_seconds", VNum (Num.of_Z 1));
                           (js "geometry", VNull);
                           (js "start_coords", VStr (js "4,3"));
                           (js "end_coords", VStr (js "2,1"))] |}.
Proof. split; vm_compute; reflexivity. Qed.

(* ================================================================== *)
(** ** [GET /geocode] *)
(* ================================================================== *)

Lemma contains_quoted (pre q post : jsstring) :
  contains (pre ++ quoted q ++ post) q.
Proof.
  exists (pre ++ [34%N]), ([34%N] ++ post). unfold quoted.
  now rewrite <- !app_assoc.
Qed.

(** *** C6 *)

(** C6: for every non-empty query, when the geocoding service answers the
    request for it with success and an empty result list, [/geocode]
    answers 400 with an error message that contains the query. *)
Theorem geocode_no_result_names_query {W : Type} (env : environment W)
  (w : W) (q : jsstring) :
  q <> [] ->
  (forall url, geocode_url (VStr q) = Ok url ->
               fst (env _ (Fetch url (Some USER_AGENT)) w)
               = Response true (Ok (VArr []))) ->
  exists msg,
    outcome env (geocode_handler (VStr q)) w = Ok (error_response 400 msg)
    /\ contains msg q.
Proof.
  intros Hq Hans. unfold outcome, geocode_handler.
  assert (Ht : truthy (VStr q) = true) by (destruct q; [congruence | reflexivity]).
  rewrite Ht. cbn [negb]. unfold geocodePlace.
  destruct (geocode_url (VStr q)) as [url | e] eqn:E.
  - specialize (Hans url eq_refl).
    cbn [lift iobind pbind try_catch fetch run].
    destruct (env _ _ w) as [x w1]. cbn [fst] in Hans. subst x.
    exists (js "Geocoding failed for " ++ quoted q
            ++ js ": No location found for " ++ quoted q).
    split; [vm_compute; reflexivity | apply contains_quoted].
  - exists (js "Geocoding failed for " ++ quoted q ++ js ": " ++ message e).
    split; [vm_compute; reflexivity | apply contains_quoted].
Qed.

(* ================================================================== *)
(** ** [GET /routes] *)
(* ================================================================== *)

Section Persistence.

Context {W : Type} (env : environment W).

(** A process whose startup task is not running never gets a
    collection. *)
Lemma serve_without_store (ins : list input) (p : process) (w : W)
  (r : request) (answer : result response) :
  routesCollection p = None -> connecting p = false ->
  In (r, answer) (serve env p ins w) -> r = GetRoutes ->
  answer = Ok {| status := 200; body := VArr [] |}.
Proof.
  intros Hcol Hcon. revert w.
  assert (Hsame : forall b, connected p b = p)
    by (intros b; unfold connected; now rewrite Hcon).
  induction ins as [|[| |r0] rest IH]; intros w; cbn [serve].
  - intros [].
  - rewrite Hsame. apply IH.
  - rewrite Hsame. apply IH.
  - destruct (run env (handle p r0) w) as [[answer0 t] w'] eqn:Er.
    intros [Heq | Hin] Hr.
    + injection Heq as -> ->. subst r. cbn [handle] in Er.
      rewrite Hcol in Er. cbn in Er. now injection Er as <- _ _.
    + exact (IH w' Hin Hr).
Qed.

(** *** C8 *)

(** C8: in a process started without [MONGODB_URI], every [GET /routes]
    is answered 200 with the empty array, whatever requests, [/save-route]
    included, the process has served before. *)
Theorem routes_empty_without_store (uri db : option jsstring)
  (ins : list input) (w : W) (r : request) (answer : result response) :
  configured uri = false ->
  In (r, answer) (serve env (startup uri db) ins w) -> r = GetRoutes ->
  answer = Ok {| status := 200; body := VArr [] |}.
Proof.
  intros Hu. apply serve_without_store; [reflexivity|].
  unfold startup. cbn [connecting]. exact Hu.
Qed.

End Persistence.

(* ================================================================== *)
(** ** The properties at concrete inputs *)
(* ================================================================== *)

Lemma nothing_found_stateless : stateless nothing_found.
Proof. intros X c [] []. reflexivity. Qed.

Lemma coordinate_number_40 : coordinate_number (js "40.0").
Proof.
  exists [], (js "40"), (js "."), (js "0").
  repeat split; auto; try discriminate; repeat constructor.
Qed.

Lemma coordinate_number_minus_73 : coordinate_number (js "-73.0").
Proof.
  exists (js "-"), (js "73"), (js "."), (js "0").
  repeat split; auto; try discriminate; repeat constructor.
Qed.

(** The request of the specification: [/route?start=40.0,-73.0&end=41.0,-74.0]
    with a routing backend that answers with one route. *)
Example route_example :
  run (one_route 1234 60)
    (route_handler (VStr (js "40.0,-73.0")) (VStr (js "41.0,-74.0"))) tt
  = (Ok {| status := 200;
           body := VObj [(js "distance_meters", VNum (Num.of_Z 1234));
                         (js "duration_seconds", VNum (Num.of_Z 60));
                         (js "geometry", VNull);
                         (js "start_coords", VStr (js "-73,40"));
                         (js "end_coords", VStr (js "-74,41"))] |},
     [Event (Fetch (route_url (js "-73,40") (js "-74,41")) None)
        (fst (one_route 1234 60 _
                (Fetch (route_url (js "-73,40") (js "-74,41")) None) tt))],
     tt).
Proof. vm_compute. reflexivity. Qed.

Lemma route_coordinates_swapped_witness :
  exists endCoords,
    route_url (js "-73,40") (js "-74,41")
    = route_url (lon_lat (Num.parseFloat (js "-73.0"))
                   (Num.parseFloat (js "40.0"))) endCoords.
Proof.
  pose (url := route_url (js "-73,40") (js "-74,41")).
  pose (e := Event (Fetch url None)
               (fst (one_route 1234 60 _ (Fetch url None) tt))).
  apply (proj1 (@route_coordinates_swapped unit (one_route 1234 60) tt
                  (js "40.0,-73.0") (js "40.0") (js "-73.0")
                  (VStr (js "41.0,-74.0")) e url None
                  eq_refl coordinate_number_40 coordinate_number_minus_73
                  eq_refl (route_url_to_routing_service _ _))).
  vm_compute. left. reflexivity.
Defined.

Lemma geocoding_only_for_place_names_witness :
  (exists input,
      (input = VStr (js "Paris") \/ input = VStr (js "40.0,-73.0"))
      /\ isCoordinates input = Ok false
      /\ geocode_url input
         = Ok (NOMINATIM_BASE
               ++ js "?q=Paris&format=json&limit=1&addressdetails=1"))
  /\ trace nothing_found (resolve (VStr (js "40.0,-73.0"))) tt = [].
Proof.
  pose (url := NOMINATIM_BASE
               ++ js "?q=Paris&format=json&limit=1&addressdetails=1").
  pose (e := Event (Fetch url (Some USER_AGENT))
               (Response true (Ok (VArr [])))).
  destruct (@geocoding_only_for_place_names unit nothing_found tt
              (VStr (js "Paris")) (VStr (js "40.0,-73.0"))) as [Hreq Hpure].
  split.
  - apply (Hreq e url (Some USER_AGENT)).
    + vm_compute. left. reflexivity.
    + reflexivity.
    + eexists. reflexivity.
  - apply Hpure. vm_compute. reflexivity.
Defined.

Lemma route_missing_parameter_witness :
  run nothing_found (route_handler (VStr (js "Paris")) VUndefined) tt
  = (Ok (error_response 400 (js "start and end required")), [], tt).
Proof.
  apply route_missing_parameter. right. left. reflexivity.
Defined.

Lemma route_transport_failure_is_500_witness :
  outcome nothing_found
    (route_handler (VStr (js "40.0,-73.0")) (VStr (js "41.0,-74.0"))) tt
  = Ok (error_response 500 (js "connect ECONNREFUSED")).
Proof.
  apply (@route_transport_failure_is_500 unit nothing_found tt
           (VStr (js "40.0,-73.0")) (VStr (js "41.0,-74.0"))
           (js "-73,40") (js "-74,41") (Error (js "connect ECONNREFUSED")));
    vm_compute; reflexivity.
Defined.

Lemma resolution_order_irrelevant_witness :
  outcome nothing_found
    (route_handler (VStr (js "40.0,-73.0")) (VStr (js "Atlantis"))) tt
  = outcome nothing_found
      (route_handler_end_first (VStr (js "40.0,-73.0")) (VStr (js "Atlantis")))
      tt.
Proof.
  apply resolution_order_irrelevant.
  - exact nothing_found_stateless.
  - left. exists (js "-73,40"). vm_compute. reflexivity.
Defined.

Lemma geocode_no_result_names_query_witness :
  exists msg,
    outcome nothing_found (geocode_handler (VStr (js "NowhereTownXYZ"))) tt
    = Ok (error_response 400 msg)
    /\ contains msg (js "NowhereTownXYZ").
Proof.
  apply geocode_no_result_names_query.
  - discriminate.
  - intros url _. reflexivity.
Defined.

Lemma routes_empty_without_store_witness :
  match serve nothing_found (startup None None)
          [Request (PostSaveRoute (VObj [(js "geo", VObj [])]));
           ConnectResolved; Request GetRoutes] tt with
  | [(PostSaveRoute _, saved); (GetRoutes, listed)] =>
      saved = Ok (error_response 400 (js "MongoDB not configured"))
      /\ listed = Ok {| status := 200; body := VArr [] |}
  | _ => False
  end.
Proof.
  vm_compute. split; [reflexivity|].
  apply (@routes_empty_without_store unit nothing_found None None
           [Request (PostSaveRoute (VObj [(js "geo", VObj [])]));
            ConnectResolved; Request GetRoutes] tt GetRoutes _ eq_refl);
    [vm_compute; right; left; reflexivity | reflexivity].
Defined.

(* ================================================================== *)
(** ** Further properties of the handlers *)
(* ================================================================== *)

Section Responses.

Context {W : Type} (env : environment W).

Lemma message_or_default_nonempty (e : exn) : message_or_default e <> [].
Proof. unfold message_or_default. destruct (message e); discriminate. Qed.

(** The three ways in which the routing step answers. *)
Lemma request_route_statuses (w : W) (sc ec : jsstring) (r : response) :
  outcome env (request_route sc ec) w = Ok r ->
  r = error_response 502 (js "Routing service error")
  \/ r = error_response 404 (js "No route found")
  \/ status r = 200%Z.
Proof.
  unfold outcome, request_route, fetch. cbn [iobind pbind run].
  destruct (env _ _ w) as [[e | ok json] w1]; cbn [throw ret pbind run fst];
    [discriminate|].
  destruct ok; cbn [negb]; [|intros [= <-]; now left].
  unfold lift, ret. cbn [iobind pbind].
  repeat match goal with
         | |- context [match ?x with Ok _ => _ | Throw _ => _ end] =>
             destruct x
         | |- context [if ?b then _ else _] => destruct b
         end;
    cbn [run fst]; intros [= <-]; auto.
Qed.

(** X1: the [/route] handler always responds, whatever its parameters and
    whatever the two services do: no exception escapes it.  The response
    is a 200, or an error response with status 400, 404, 500 or 502 and a
    non-empty message. *)
Theorem route_always_responds (w : W) (start end_ : value) :
  exists r,
    outcome env (route_handler start end_) w = Ok r
    /\ (status r = 200%Z
        \/ exists code msg,
             r = error_response code msg
             /\ route_error_status code /\ msg <> []).
Proof.
  assert (H500 : forall e,
             exists code msg,
               error_response 500 (message_or_default e)
               = error_response code msg
               /\ route_error_status code /\ msg <> []).
  { intros e. exists 500%Z, (message_or_default e).
    repeat split; [unfold route_error_status; auto
                  | apply message_or_default_nonempty]. }
  destruct (truthy start) eqn:Hs; [destruct (truthy end_) eqn:He|].
  - rewrite (route_handler_outcome env _ _ w Hs He). eexists.
    split; [reflexivity|].
    destruct (outcome env (resolve start) w) as [sc | e]; [|right; apply H500].
    cbv zeta.
    destruct (outcome env (resolve end_) _) as [ec | e]; [|right; apply H500].
    destruct (outcome env (request_route sc ec) _) as [r | e] eqn:Er;
      [|right; apply H500].
    destruct (request_route_statuses _ _ _ _ Er) as [-> | [-> | H]];
      [right | right | now left].
    + exists 502%Z, (js "Routing service error").
      repeat split; [unfold route_error_status; auto | discriminate].
    + exists 404%Z, (js "No route found").
      repeat split; [unfold route_error_status; auto | discriminate].
  - unfold route_handler. rewrite Hs, He. eexists. split; [reflexivity|].
    right. exists 400%Z, (js "start and end required").
    repeat split; [unfold route_error_status; auto | discriminate].
  - unfold route_handler. rewrite Hs. eexists. split; [reflexivity|].
    right. exists 400%Z, (js "start and end required").
    repeat split; [unfold route_error_status; auto | discriminate].
Qed.

End Responses.

(* ================================================================== *)
(** ** Reading the answers of the two services *)
(* ================================================================== *)

Section Reading.

(** A positive integer is not the Number zero. *)
Lemma of_Z_positive (z : Z) :
  (0 < z)%Z ->
  Num.is_zero (Num.of_Z z) = false /\ Num.of_Z z <> NaN.
Proof.
  intros Hz. split; [|apply round_not_NaN].
  unfold Num.of_Z, Num.round. rewrite Z.abs_eq by lia.
  destruct (Z.leb_spec z 0); [lia|].
  destruct (_ <=? z)%Z; [reflexivity|].
  set (e := Z.max (Num.binade z 1 - 52) (-1074)).
  set (m := if (0 <=? e)%Z then _ else _).
  assert (Hm : (1 <= m)%Z).
  { subst m. destruct (Z.leb_spec 0 e) as [He | He].
    - assert (Hb : (Num.binade z 1 <= Z.log2 z)%Z).
      { unfold Num.binade. change (Z.log2 1) with 0%Z. rewrite Z.sub_0_r.
        destruct (Num.pow2_le _ _ _); lia. }
      assert (Hp : (2 ^ e <= z)%Z).
      { apply Z.le_trans with (2 ^ Z.log2 z)%Z.
        - apply Z.pow_le_mono_r; lia.
        - apply Z.log2_spec. lia. }
      assert (Hq : (1 <= z / (1 * 2 ^ e))%Z).
      { rewrite Z.mul_1_l. apply Z.div_le_lower_bound; [|lia].
        apply Z.pow_pos_nonneg; lia. }
      unfold Num.round_nearest_even.
      destruct (_ ?= _)%Z; [destruct (Z.even _)| |]; lia.
    - unfold Num.round_nearest_even. rewrite Z.mod_1_r, Z.div_1_r.
      cbn [Z.mul Z.compare].
      assert (0 < 2 ^ (- e))%Z by (apply Z.pow_pos_nonneg; lia). nia. }
  destruct m as [|p|p]; try lia.
  now destruct (_ =? _)%Z.
Qed.

Lemma get_length_array (items : list value) :
  get (VArr items) (js "length")
  = Ok (VNum (Num.of_Z (Z.of_nat (List.length items)))).
Proof. reflexivity. Qed.

Lemma get_first_array (x : value) (rest : list value) :
  get (VArr (x :: rest)) (js "0") = Ok x.
Proof. reflexivity. Qed.

Lemma get_object (key : jsstring) (fields : list (jsstring * value)) :
  get (VObj fields) key = Ok (field key fields).
Proof. reflexivity. Qed.

Lemma nonempty_array_length (x : value) (rest : list value) :
  exists n,
    get (VArr (x :: rest)) (js "length") = Ok (VNum n)
    /\ Num.is_zero n = false /\ truthy (VNum n) = true.
Proof.
  eexists. split; [apply get_length_array|].
  destruct (of_Z_positive (Z.of_nat (List.length (x :: rest)))) as [Hz Hn].
  { cbn [List.length]. lia. }
  split; [exact Hz|].
  cbn [truthy]. destruct (Num.of_Z _); try reflexivity; try discriminate.
  now elim Hn.
Qed.

End Reading.

(* ================================================================== *)
(** ** The geocoding client *)
(* ================================================================== *)

Section Geocoding.

Context {W : Type} (env : environment W).

(** Every exception of the geocoding client is wrapped by its [catch]. *)
Lemma geocodePlace_throws (w : W) (q : jsstring) (e : exn) :
  outcome env (geocodePlace (VStr q)) w = Throw e ->
  exists inner, e = geocoding_failed q inner.
Proof.
  unfold geocodePlace. rewrite outcome_try_catch.
  destruct (outcome env _ w) as [g | e']; [discriminate|].
  unfold outcome. cbn. intros [= <-]. now exists (message e').
Qed.

Ltac answered H E w :=
  unfold outcome, geocodePlace; rewrite E;
  cbn [lift iobind pbind try_catch fetch run];
  let x := fresh "x" in
  let w1 := fresh "w" in
  destruct (env _ _ w) as [x w1]; cbn [fst] in H; subst x;
  cbn [pbind throw ret run fst negb].

(** X2: what the geocoding client makes of each answer that is not a
    usable result.  A transport failure, a non-success status (the body is
    not read), a body that is not JSON and an empty or missing result list
    each give an [Error] whose message names the place and the cause. *)
Theorem geocodePlace_failures (w : W) (q url : jsstring) :
  geocode_url (VStr q) = Ok url ->
  let answer := fst (env _ (Fetch url (Some USER_AGENT)) w) in
  (forall err, answer = Rejected err ->
     outcome env (geocodePlace (VStr q)) w
     = Throw (geocoding_failed q (message err)))
  /\ (forall json, answer = Response false json ->
        outcome env (geocodePlace (VStr q)) w
        = Throw (geocoding_failed q (js "Geocoding service error")))
  /\ (forall err, answer = Response true (Throw err) ->
        outcome env (geocodePlace (VStr q)) w
        = Throw (geocoding_failed q (message err)))
  /\ (forall results,
        answer = Response true (Ok results) ->
        truthy results = false \/ results = VArr [] ->
        outcome env (geocodePlace (VStr q)) w
        = Throw (geocoding_failed q
                   (js "No location found for " ++ quoted q))).
Proof.
  intros E answer. subst answer. repeat apply conj.
  - intros err H. answered H E w. reflexivity.
  - intros json H. answered H E w. reflexivity.
  - intros err H. answered H E w. reflexivity.
  - intros results H [Hf | ->]; answered H E w.
    + rewrite Hf. reflexivity.
    + reflexivity.
Qed.

(** X3: from a non-empty result list the geocoding client takes the
    first result only, and parses its [lat] and [lon] with [parseFloat];
    the other results do not matter. *)
Theorem geocodePlace_first_result (w : W) (q url la lo : jsstring)
  (fields : list (jsstring * value)) (rest : list value) :
  geocode_url (VStr q) = Ok url ->
  fst (env _ (Fetch url (Some USER_AGENT)) w)
  = Response true (Ok (VArr (VObj fields :: rest))) ->
  own (js "lat") fields = Some (VStr la) ->
  own (js "lon") fields = Some (VStr lo) ->
  outcome env (geocodePlace (VStr q)) w
  = Ok {| g_lat := Num.parseFloat la;
          g_lon := Num.parseFloat lo;
          g_display_name := field (js "display_name") fields |}.
Proof.
  intros E H Hla Hlo. answered H E w.
  cbn [truthy negb].
  destruct (nonempty_array_length (VObj fields) rest) as (n & -> & Hz & _).
  cbn [bind Value.is_zero]. rewrite Hz, get_first_array, !get_object.
  unfold field at 1 2. rewrite Hla, Hlo. reflexivity.
Qed.

(** X4: the numbers of a geocoding result are not checked.  When the
    first result has no [lat] and no [lon], the client returns [NaN] for
    both, and the [/route] handler resolves the place to the coordinate
    string ["NaN,NaN"]. *)
Theorem geocoded_numbers_unchecked (w : W) (q url : jsstring)
  (fields : list (jsstring * value)) (rest : list value) :
  geocode_url (VStr q) = Ok url ->
  fst (env _ (Fetch url (Some USER_AGENT)) w)
  = Response true (Ok (VArr (VObj fields :: rest))) ->
  own (js "lat") fields = None ->
  own (js "lon") fields = None ->
  outcome env (geocodePlace (VStr q)) w
  = Ok {| g_lat := NaN; g_lon := NaN;
          g_display_name := field (js "display_name") fields |}
  /\ (isCoordinates (VStr q) = Ok false ->
      outcome env (resolve (VStr q)) w = Ok (js "NaN,NaN")).
Proof.
  intros E H Hla Hlo.
  assert (G : outcome env (geocodePlace (VStr q)) w
              = Ok {| g_lat := NaN; g_lon := NaN;
                      g_display_name := field (js "display_name") fields |}).
  { answered H E w. cbn [truthy negb].
    destruct (nonempty_array_length (VObj fields) rest) as (n & -> & Hz & _).
    cbn [bind Value.is_zero]. rewrite Hz, get_first_array, !get_object.
    unfold field at 1 2. rewrite Hla, Hlo. reflexivity. }
  split; [exact G|].
  intros Hc. unfold resolve. rewrite Hc. cbn [lift iobind pbind].
  change (pbind (geocodePlace (VStr q)) _)
    with (iobind (geocodePlace (VStr q))
            (fun geocoded => ret (lon_lat (g_lon geocoded) (g_lat geocoded)))).
  rewrite outcome_iobind, G. reflexivity.
Qed.

End Geocoding.

(* ================================================================== *)
(** ** The order and number of the outbound calls *)
(* ================================================================== *)

Section Calls.

Context {W : Type} (env : environment W).

Lemma geocodePlace_trace (p : value) (w : W) :
  Forall geocoding_request (trace env (geocodePlace p) w)
  /\ (List.length (trace env (geocodePlace p) w) <= 1)%nat.
Proof.
  pose proof (geocodePlace_shape p) as G.
  destruct (geocode_url p) as [url | e] eqn:E.
  - rewrite (trace_calls_once env _ _ w G). split; [|simpl; lia].
    constructor; [|constructor]. exists url. split; [reflexivity|].
    exact (geocode_url_to_geocoding_service _ _ E).
  - destruct (run_pure env _ w G) as [-> _]. split; [constructor | simpl; lia].
Qed.

Lemma resolve_trace (input : value) (w : W) :
  Forall geocoding_request (trace env (resolve input) w)
  /\ (List.length (trace env (resolve input) w) <= 1)%nat.
Proof.
  destruct (resolve_shape input) as [P | (_ & url & E & C)].
  - destruct (run_pure env _ w P) as [-> _]. split; [constructor | simpl; lia].
  - rewrite (trace_calls_once env _ _ w C). split; [|simpl; lia].
    constructor; [|constructor]. exists url. split; [reflexivity|].
    exact (geocode_url_to_geocoding_service _ _ E).
Qed.

Lemma request_route_trace (sc ec : jsstring) (w : W) :
  Forall routing_request (trace env (request_route sc ec) w)
  /\ List.length (trace env (request_route sc ec) w) = 1%nat.
Proof.
  rewrite (trace_calls_once env _ _ w (request_route_shape sc ec)).
  split; [|reflexivity]. constructor; [|constructor].
  exists (route_url sc ec). split; [reflexivity|].
  apply route_url_to_routing_service.
Qed.

(** The calls of a run of the [/route] handler with both parameters. *)
Lemma route_handler_trace (start end_ : value) (w : W) :
  truthy start = true -> truthy end_ = true ->
  trace env (route_handler start end_) w
  = trace env (resolve start) w
    ++ match outcome env (resolve start) w with
       | Throw _ => []
       | Ok sc =>
           let w1 := state_after env (resolve start) w in
           trace env (resolve end_) w1
           ++ match outcome env (resolve end_) w1 with
              | Throw _ => []
              | Ok ec =>
                  trace env (request_route sc ec)
                    (state_after env (resolve end_) w1)
              end
       end.
Proof.
  intros Hs He. rewrite (route_handler_present _ _ Hs He).
  rewrite trace_try_catch, trace_iobind, outcome_iobind.
  destruct (outcome env (resolve start) w) as [sc | e].
  - rewrite trace_iobind, outcome_iobind. cbv zeta.
    destruct (outcome env (resolve end_) _) as [ec | e].
    + destruct (outcome env (request_route sc ec) _);
        cbn [ret trace run fst snd]; now rewrite !app_nil_r.
    + cbn [ret trace run fst snd]. now rewrite !app_nil_r.
  - cbn [ret trace run fst snd]. now rewrite !app_nil_r.
Qed.

(** X5: a run of the [/route] handler makes at most two geocoding
    requests and then at most one routing request: the routing service is
    never contacted before a geocoding request, and never twice. *)
Theorem route_call_order (w : W) (start end_ : value) :
  exists geocoding routing,
    trace env (route_handler start end_) w = geocoding ++ routing
    /\ Forall geocoding_request geocoding
    /\ (List.length geocoding <= 2)%nat
    /\ Forall routing_request routing
    /\ (List.length routing <= 1)%nat.
Proof.
  destruct (truthy start) eqn:Hs; [destruct (truthy end_) eqn:He|].
  - rewrite (route_handler_trace _ _ w Hs He).
    destruct (resolve_trace start w) as [F1 L1].
    destruct (outcome env (resolve start) w) as [sc | e].
    + cbv zeta.
      destruct (resolve_trace end_ (state_after env (resolve start) w))
        as [F2 L2].
      destruct (outcome env (resolve end_) _) as [ec | e].
      * destruct (request_route_trace sc ec
                    (state_after env (resolve end_)
                       (state_after env (resolve start) w))) as [F3 L3].
        eexists (_ ++ _), _. rewrite <- app_assoc.
        split; [reflexivity|].
        split; [apply Forall_app; auto|].
        split; [rewrite length_app; lia|].
        split; [assumption | lia].
      * eexists (_ ++ _), []. rewrite !app_nil_r.
        split; [reflexivity|].
        split; [apply Forall_app; auto|].
        split; [rewrite length_app; lia|].
        split; [constructor | simpl; lia].
    + eexists _, []. split; [reflexivity|].
      split; [assumption|]. split; [lia|].
      split; [constructor | simpl; lia].
  - exists [], []. unfold route_handler. rewrite Hs, He.
    repeat split; auto; simpl; lia.
  - exists [], []. unfold route_handler. rewrite Hs.
    repeat split; auto; simpl; lia.
Qed.

(** X6: a resolution that throws ends the request.  When [start] can not
    be resolved the handler answers 500 with the message of the exception
    and makes no further call: [end] is not resolved.  When [end] can not
    be resolved the answer is 500 as well, and the routing service is not
    contacted. *)
Theorem route_stops_at_first_failure (w : W) (start end_ : value) (e : exn) :
  truthy start = true -> truthy end_ = true ->
  (outcome env (resolve start) w = Throw e ->
   outcome env (route_handler start end_) w
   = Ok (error_response 500 (message_or_default e))
   /\ trace env (route_handler start end_) w = trace env (resolve start) w)
  /\ (forall sc,
        outcome env (resolve start) w = Ok sc ->
        outcome env (resolve end_) (state_after env (resolve start) w)
        = Throw e ->
        outcome env (route_handler start end_) w
        = Ok (error_response 500 (message_or_default e))
        /\ trace env (route_handler start end_) w
           = trace env (resolve start) w
             ++ trace env (resolve end_) (state_after env (resolve start) w)).
Proof.
  intros Hs He. split.
  - intros H. rewrite (route_handler_outcome env _ _ w Hs He).
    rewrite (route_handler_trace _ _ w Hs He), H.
    now rewrite app_nil_r.
  - intros sc H1 H2. rewrite (route_handler_outcome env _ _ w Hs He).
    rewrite (route_handler_trace _ _ w Hs He), H1. cbv zeta.
    rewrite H2. now rewrite app_nil_r.
Qed.

End Calls.

(* ================================================================== *)
(** ** [GET /geocode] *)
(* ================================================================== *)

Section GeocodeHandler.

Context {W : Type} (env : environment W).

Lemma geocode_handler_outcome (q : value) (w : W) :
  truthy q = true ->
  outcome env (geocode_handler q) w
  = match outcome env (geocodePlace q) w with
    | Ok result =>
        Ok {| status := 200;
              body := VObj [(js "lat", VNum (g_lat result));
                            (js "lon", VNum (g_lon result));
                            (js "display_name", g_display_name result)] |}
    | Throw err => Ok (error_response 400 (message err))
    end.
Proof.
  intros Hq. unfold geocode_handler. rewrite Hq. cbn [negb].
  rewrite outcome_try_catch, outcome_iobind.
  destruct (outcome env (geocodePlace q) w); reflexivity.
Qed.

Lemma geocode_handler_trace (q : value) (w : W) :
  trace env (geocode_handler q) w
  = if truthy q then trace env (geocodePlace q) w else [].
Proof.
  unfold geocode_handler. destruct (truthy q); cbn [negb]; [|reflexivity].
  rewrite trace_try_catch, trace_iobind, outcome_iobind.
  destruct (outcome env (geocodePlace q) w);
    cbn [ret trace run fst snd]; now rewrite !app_nil_r.
Qed.

(** X7: the [/geocode] handler answers every request, with status 200 or
    with status 400 and an error message; no exception escapes it.  It
    makes at most one outbound call, a request to the geocoding service,
    and none at all when [q] is absent or empty. *)
Theorem geocode_always_responds (w : W) (q : value) :
  (exists r,
     outcome env (geocode_handler q) w = Ok r
     /\ (status r = 200%Z \/ exists msg, r = error_response 400 msg))
  /\ Forall geocoding_request (trace env (geocode_handler q) w)
  /\ (List.length (trace env (geocode_handler q) w) <= 1)%nat
  /\ (truthy q = false -> trace env (geocode_handler q) w = []).
Proof.
  rewrite geocode_handler_trace. destruct (truthy q) eqn:Hq.
  - rewrite (geocode_handler_outcome _ w Hq).
    destruct (geocodePlace_trace env q w) as [F L].
    split; [|split; [exact F | split; [exact L | discriminate]]].
    destruct (outcome env (geocodePlace q) w) as [g | e]; eexists;
      (split; [reflexivity|]); [left; reflexivity | right; eexists; reflexivity].
  - split; [|split; [constructor | split; [simpl; lia | reflexivity]]].
    unfold geocode_handler. rewrite Hq. eexists. split; [reflexivity|].
    right. eexists. reflexivity.
Qed.

(** X8: [/geocode] and [/route] agree on a place.  When the answers of
    the services do not change, a text that is not a coordinate pair and
    that [/geocode] answers with status 200 resolves, in [/route], to the
    very numbers of that answer, printed longitude first. *)
Theorem route_resolves_to_geocode_answer (w w' : W) (p : value) (r : response) :
  stateless env ->
  isCoordinates p = Ok false ->
  outcome env (geocode_handler p) w = Ok r ->
  status r = 200%Z ->
  exists la lo name,
    body r = VObj [(js "lat", VNum la); (js "lon", VNum lo);
                   (js "display_name", name)]
    /\ outcome env (resolve p) w' = Ok (lon_lat lo la).
Proof.
  intros St Hc H S.
  destruct (truthy p) eqn:Hp.
  - rewrite (geocode_handler_outcome _ w Hp) in H.
    destruct (outcome env (geocodePlace p) w) as [g | e] eqn:G.
    + injection H as <-. exists (g_lat g), (g_lon g), (g_display_name g).
      split; [reflexivity|].
      unfold resolve. rewrite Hc. cbn [lift iobind pbind].
      change (pbind (geocodePlace p) _)
        with (iobind (geocodePlace p)
                (fun geocoded => ret (lon_lat (g_lon geocoded) (g_lat geocoded)))).
      rewrite outcome_iobind.
      rewrite (outcome_stateless env _ w' w St), G. reflexivity.
    + injection H as <-. discriminate S.
  - unfold geocode_handler in H. rewrite Hp in H. injection H as <-.
    discriminate S.
Qed.

End GeocodeHandler.

(* ================================================================== *)
(** ** The answer of the routing service *)
(* ================================================================== *)

Section Routing.

Context {W : Type} (env : environment W).

Ltac routed H w :=
  unfold outcome, request_route, fetch; cbn [iobind pbind run];
  destruct (env _ _ w) as [? ?]; cbn [fst] in H; subst;
  cbn [ret lift throw iobind pbind negb run fst].

Lemma request_route_first_route (w : W) (sc ec : jsstring)
  (top fields : list (jsstring * value)) (rest : list value) :
  fst (env _ (Fetch (route_url sc ec) None) w)
  = Response true (Ok (VObj top)) ->
  own (js "routes") top = Some (VArr (VObj fields :: rest)) ->
  outcome env (request_route sc ec) w
  = Ok {| status := 200;
          body := VObj [(js "distance_meters", field (js "distance") fields);
                        (js "duration_seconds", field (js "duration") fields);
                        (js "geometry", field (js "geometry") fields);
                        (js "start_coords", VStr sc);
                        (js "end_coords", VStr ec)] |}.
Proof.
  intros H Hr. routed H w.
  rewrite get_object.
  replace (field (js "routes") top) with (VArr (VObj fields :: rest))
    by (unfold field; now rewrite Hr).
  cbn [truthy negb].
  destruct (nonempty_array_length (VObj fields) rest) as (n & -> & _ & Ht).
  cbn [bind]. rewrite Ht. cbn [negb lift iobind pbind].
  rewrite get_first_array. cbn [lift iobind pbind].
  rewrite !get_object. reflexivity.
Qed.

Lemma request_route_unusable (w : W) (sc ec : jsstring) :
  let answer := fst (env _ (Fetch (route_url sc ec) None) w) in
  (forall err, answer = Response true (Throw err) ->
     outcome env (request_route sc ec) w = Throw err)
  /\ (answer = Response true (Ok VNull) ->
      outcome env (request_route sc ec) w
      = Throw (TypeError
                 (js "Cannot read properties of null (reading 'routes')")))
  /\ (forall top,
        answer = Response true (Ok (VObj top)) ->
        own (js "routes") top = None
        \/ own (js "routes") top = Some VNull
        \/ own (js "routes") top = Some (VArr []) ->
        outcome env (request_route sc ec) w
        = Ok (error_response 404 (js "No route found"))).
Proof.
  cbv zeta. repeat apply conj.
  - intros err H. routed H w. reflexivity.
  - intros H. routed H w. reflexivity.
  - intros top H Hr. routed H w. rewrite get_object. unfold field.
    destruct Hr as [-> | [-> | ->]]; reflexivity.
Qed.

(** X9: a successful answer is built from the first route alone.  When
    both locations are resolved and the routing service answers [ok] with
    a JSON object whose [routes] is an array that starts with an object,
    the handler answers 200 with the [distance], [duration] and
    [geometry] of that first route (a missing one is [undefined]) and the
    two coordinate strings it sent; the other routes and the other fields
    of the answer have no influence. *)
Theorem route_first_route_only (w : W) (start end_ : value) (sc ec : jsstring)
  (top fields : list (jsstring * value)) (rest : list value) :
  truthy start = true -> truthy end_ = true ->
  outcome env (resolve start) w = Ok sc ->
  outcome env (resolve end_) (state_after env (resolve start) w) = Ok ec ->
  fst (env _ (Fetch (route_url sc ec) None)
         (state_after env (resolve end_) (state_after env (resolve start) w)))
  = Response true (Ok (VObj top)) ->
  own (js "routes") top = Some (VArr (VObj fields :: rest)) ->
  outcome env (route_handler start end_) w
  = Ok {| status := 200;
          body := VObj [(js "distance_meters", field (js "distance") fields);
                        (js "duration_seconds", field (js "duration") fields);
                        (js "geometry", field (js "geometry") fields);
                        (js "start_coords", VStr sc);
                        (js "end_coords", VStr ec)] |}.
Proof.
  intros Hs He Hsc Hec H Hr.
  rewrite (route_handler_outcome env _ _ w Hs He), Hsc. cbv zeta.
  rewrite Hec. now rewrite (request_route_first_route _ _ _ _ _ _ H Hr).
Qed.

(** X10: the answers of the routing service that carry no route.  With
    both locations resolved: an [ok] answer whose JSON object has no
    [routes], or [null], or an empty array there, gives 404 'No route
    found'; an [ok] answer whose body is not JSON gives 500 with the
    message of the parse error, and the JSON value [null] gives 500 with
    the message of the TypeError of reading [routes] from it. *)
Theorem route_without_routes (w : W) (start end_ : value) (sc ec : jsstring) :
  truthy start = true -> truthy end_ = true ->
  outcome env (resolve start) w = Ok sc ->
  outcome env (resolve end_) (state_after env (resolve start) w) = Ok ec ->
  let answer :=
    fst (env _ (Fetch (route_url sc ec) None)
           (state_after env (resolve end_)
              (state_after env (resolve start) w))) in
  (forall top,
     answer = Response true (Ok (VObj top)) ->
     own (js "routes") top = None
     \/ own (js "routes") top = Some VNull
     \/ own (js "routes") top = Some (VArr []) ->
     outcome env (route_handler start end_) w
     = Ok (error_response 404 (js "No route found")))
  /\ (forall err,
        answer = Response true (Throw err) ->
        outcome env (route_handler start end_) w
        = Ok (error_response 500 (message_or_default err)))
  /\ (answer = Response true (Ok VNull) ->
      outcome env (route_handler start end_) w
      = Ok (error_response 500
              (js "Cannot read properties of null (reading 'routes')"))).
Proof.
  intros Hs He Hsc Hec answer. subst answer.
  rewrite (route_handler_outcome env _ _ w Hs He), Hsc. cbv zeta.
  rewrite Hec.
  destruct (request_route_unusable
              (state_after env (resolve end_)
                 (state_after env (resolve start) w)) sc ec)
    as (U1 & U2 & U3).
  repeat apply conj.
  - intros top H Hr. now rewrite (U3 top H Hr).
  - intros err H. now rewrite (U1 err H).
  - intros H. now rewrite (U2 H).
Qed.

End Routing.

(* ================================================================== *)
(** ** Parameters that are not text, and the wording of the errors *)
(* ================================================================== *)

Section Parameters.

Context {W : Type} (env : environment W).

Lemma resolve_structured (v : value) (w : W) :
  structured v ->
  run env (resolve v) w
  = (Throw (TypeError (js "input.trim is not a function")), [], w).
Proof. intros [[items ->] | [fields ->]]; reflexivity. Qed.

(** X11: a query parameter that the framework parsed into an array or an
    object (a repeated [start], or [start[k]=v]) is not text.  For such a
    [start] the [/route] handler answers 500 with the message of the
    TypeError of [input.trim] and makes no outbound call; for such an
    [end] it answers the same once [start] is resolved, without
    contacting the routing service. *)
Theorem route_structured_parameter (w : W) (start end_ : value) :
  (structured start -> truthy end_ = true ->
   outcome env (route_handler start end_) w
   = Ok (error_response 500 (js "input.trim is not a function"))
   /\ trace env (route_handler start end_) w = [])
  /\ (structured end_ -> truthy start = true ->
      forall sc, outcome env (resolve start) w = Ok sc ->
      outcome env (route_handler start end_) w
      = Ok (error_response 500 (js "input.trim is not a function"))
      /\ trace env (route_handler start end_) w
         = trace env (resolve start) w).
Proof.
  split.
  - intros S He.
    assert (Hs : truthy start = true)
      by (destruct S as [[? ->] | [? ->]]; reflexivity).
    pose proof (resolve_structured start w S) as R.
    rewrite (route_handler_outcome env _ _ w Hs He).
    rewrite (route_handler_trace env _ _ w Hs He).
    unfold outcome, trace. rewrite R. split; reflexivity.
  - intros S Hs sc Hsc.
    assert (He : truthy end_ = true)
      by (destruct S as [[? ->] | [? ->]]; reflexivity).
    pose proof (resolve_structured end_ (state_after env (resolve start) w) S)
      as R.
    assert (Ro : outcome env (resolve end_) (state_after env (resolve start) w)
                 = Throw (TypeError (js "input.trim is not a function")))
      by (unfold outcome; now rewrite R).
    assert (Rt : trace env (resolve end_) (state_after env (resolve start) w)
                 = [])
      by (unfold trace; now rewrite R).
    rewrite (route_handler_outcome env _ _ w Hs He).
    rewrite (route_handler_trace env _ _ w Hs He), Hsc. cbv zeta.
    rewrite Ro, Rt. split; [reflexivity | now rewrite app_nil_r].
Qed.

(** X12: every error of [/geocode] on a non-empty text names the text.
    Whatever the geocoding service does, an answer other than 200 has
    status 400 and a message that starts with [Geocoding failed for],
    followed by the text between double quotes and a colon. *)
Theorem geocode_errors_name_query (w : W) (q : jsstring) (r : response) :
  q <> [] ->
  outcome env (geocode_handler (VStr q)) w = Ok r ->
  status r <> 200%Z ->
  exists inner,
    r = error_response 400
          (js "Geocoding failed for " ++ quoted q ++ js ": " ++ inner).
Proof.
  intros Hq H S.
  assert (Ht : truthy (VStr q) = true) by (destruct q; [easy | reflexivity]).
  rewrite (geocode_handler_outcome env _ w Ht) in H.
  destruct (outcome env (geocodePlace (VStr q)) w) as [g | e] eqn:G.
  - injection H as <-. now elim S.
  - destruct (geocodePlace_throws env w q e G) as [inner ->].
    injection H as <-. now exists inner.
Qed.

End Parameters.

(* ================================================================== *)
(** ** The optional store *)
(* ================================================================== *)

Section Store.

Context {W : Type} (env : environment W).

Lemma connected_settled (p : process) (b : bool) :
  connecting p = false -> connected p b = p.
Proof. intros H. unfold connected. now rewrite H. Qed.

Lemma process_after_settled (ins : list input) (p : process) :
  connecting p = false -> process_after p ins = p.
Proof.
  intros H. induction ins as [|[| |r] rest IH]; cbn; auto;
    now rewrite connected_settled.
Qed.

Lemma process_after_requests (pre : list input) (p : process)
  (rest : list input) :
  Forall is_request pre ->
  process_after p (pre ++ rest) = process_after p rest.
Proof.
  induction 1 as [|[| |r] pre [] _ IH]; [reflexivity|]. exact IH.
Qed.

Lemma first_connection (ins : list input) :
  Forall is_request ins
  \/ exists pre i post,
       ins = pre ++ i :: post /\ Forall is_request pre
       /\ (i = ConnectResolved \/ i = ConnectRejected).
Proof.
  induction ins as [|i rest [IH | (pre & j & post & -> & F & Hj)]].
  - left. constructor.
  - destruct i as [| |r].
    + right. exists [], ConnectResolved, rest. repeat split; auto.
    + right. exists [], ConnectRejected, rest. repeat split; auto.
    + left. constructor; [exact I | exact IH].
  - destruct i as [| |r].
    + right. exists [], ConnectResolved, (pre ++ j :: post).
      repeat split; auto.
    + right. exists [], ConnectRejected, (pre ++ j :: post).
      repeat split; auto.
    + right. exists (Request r :: pre), j, post.
      repeat split; auto. constructor; [exact I | exact F].
Qed.

Lemma process_after_first (pre post : list input) (p : process) (b : bool) :
  Forall is_request pre ->
  process_after p
    (pre ++ (if b then ConnectResolved else ConnectRejected) :: post)
  = process_after (connected p b) post.
Proof.
  intros F. rewrite (process_after_requests _ _ _ F). now destruct b.
Qed.

Lemma connected_connecting (p : process) (b : bool) :
  connecting (connected p b) = false.
Proof. unfold connected. destruct (connecting p) eqn:E; [reflexivity | exact E]. Qed.

Lemma requests_not_rejected (pre : list input) :
  Forall is_request pre -> ~ In ConnectRejected pre.
Proof.
  intros F H. rewrite Forall_forall in F. exact (F _ H).
Qed.

(** The answers of [serve] are those of the handlers in the module
    state that [process_after] computes. *)
Lemma serve_process_after (ins : list input) (p : process) (w : W)
  (r : request) (answer : result response) :
  In (r, answer) (serve env p ins w) ->
  exists pre post w',
    ins = pre ++ Request r :: post
    /\ answer = outcome env (handle (process_after p pre) r) w'.
Proof.
  revert p w. induction ins as [|[| |r0] rest IH]; intros p w; cbn [serve].
  - intros [].
  - intros H. destruct (IH _ _ H) as (pre & post & w' & -> & E).
    exists (ConnectResolved :: pre), post, w'. split; [reflexivity | exact E].
  - intros H. destruct (IH _ _ H) as (pre & post & w' & -> & E).
    exists (ConnectRejected :: pre), post, w'. split; [reflexivity | exact E].
  - destruct (run env (handle p r0) w) as [[answer0 t] w1] eqn:Er.
    intros [Heq | H].
    + injection Heq as -> ->. exists [], rest, w.
      split; [reflexivity|]. unfold outcome, process_after.
      cbn [fold_left]. now rewrite Er.
    + destruct (IH _ _ H) as (pre & post & w' & -> & E).
      exists (Request r0 :: pre), post, w'. split; [reflexivity | exact E].
Qed.

(** X13: the life of the store handle.  Whatever the event loop
    delivers, [routesCollection] is either still [null] or the collection
    [routes] of the configured database ([easymap] when [MONGODB_DB] is
    unset or empty).  It is set exactly when [MONGODB_URI] is configured
    and the connection attempt succeeded: a failed attempt is not
    repeated, and a process started without [MONGODB_URI] never connects. *)
Theorem store_lifecycle (uri db : option jsstring) (ins : list input) :
  let c := routesCollection (process_after (startup uri db) ins) in
  (c = None \/ c = Some (routes_of db))
  /\ (c = Some (routes_of db)
      <-> configured uri = true
          /\ exists pre post,
               ins = pre ++ ConnectResolved :: post
               /\ ~ In ConnectRejected pre).
Proof.
  cbv zeta.
  destruct (configured uri) eqn:U.
  - destruct (first_connection ins) as [F | (pre & i & post & -> & F & Hi)].
    + rewrite <- (app_nil_r ins), (process_after_requests _ _ _ F).
      cbn. split; [now left|]. split; [discriminate|].
      intros (_ & pre & post & E & _). exfalso.
      rewrite app_nil_r in E. rewrite E in F.
      apply Forall_elt in F. exact F.
    + destruct Hi as [-> | ->].
      * rewrite (process_after_first pre post _ true F).
        rewrite process_after_settled by apply connected_connecting.
        unfold connected, startup. cbn [connecting]. rewrite U.
        cbn [routesCollection MONGODB_DB]. fold (routes_of db).
        split; [now right|]. split; [|reflexivity]. intros _.
        split; [reflexivity|]. exists pre, post.
        split; [reflexivity | now apply requests_not_rejected].
      * rewrite (process_after_first pre post _ false F).
        rewrite process_after_settled by apply connected_connecting.
        unfold connected, startup. cbn [connecting]. rewrite U.
        cbn [routesCollection]. split; [now left|].
        split; [discriminate|].
        intros (_ & pre' & post' & E & N). exfalso.
        destruct (first_connection pre')
          as [F' | (q & j & post'' & -> & F' & Hj)].
        -- (* the first connection input of both decompositions *)
           revert post post' E F F'. clear N.
           generalize dependent pre'. 
           induction pre as [|x pre IH]; intros [|y pre'] post post' E F F';
             cbn in E.
           ++ discriminate E.
           ++ injection E as <- _. inversion F'; subst. contradiction.
           ++ injection E as -> _. inversion F; subst. contradiction.
           ++ injection E as -> E. inversion F; inversion F'; subst.
              eapply IH; eauto.
        -- revert post post' post'' E F F' N Hj.
           generalize dependent q.
           induction pre as [|x pre IH]; intros [|y q] post post' post'' E F F' N Hj;
             cbn in E.
           ++ injection E as <- _. apply N. cbn. now left.
           ++ injection E as <- _. inversion F'; subst. contradiction.
           ++ injection E as -> _. inversion F; subst.
              destruct Hj as [-> | ->]; contradiction.
           ++ injection E as -> E. inversion F; inversion F'; subst.
              eapply (IH q post post' post''); eauto.
              intros HN. apply N. cbn. now right.
  - rewrite process_after_settled by (unfold startup; cbn; exact U).
    cbn. split; [now left|]. split; [discriminate|]. now intros [? _].
Qed.

(** The requests of a process without a store handle, as long as no
    connection attempt succeeds. *)
Lemma serve_unconnected (ins : list input) (p : process) (w : W)
  (r : request) (answer : result response) :
  routesCollection p = None -> ~ In ConnectResolved ins ->
  In (r, answer) (serve env p ins w) ->
  (forall b, r = PostSaveRoute b ->
             answer = Ok (error_response 400 (js "MongoDB not configured")))
  /\ (r = GetRoutes -> answer = Ok {| status := 200; body := VArr [] |}).
Proof.
  intros Hcol. revert w.
  assert (Hrej : routesCollection (connected p false) = None).
  { unfold connected. destruct (connecting p); [|exact Hcol].
    cbn. exact Hcol. }
  revert p Hcol Hrej.
  induction ins as [|[| |r0] rest IH]; intros p Hcol Hrej w N; cbn [serve].
  - intros [].
  - elim N. now left.
  - apply IH.
    + exact Hrej.
    + rewrite connected_settled by apply connected_connecting. exact Hrej.
    + intros H. apply N. now right.
  - destruct (run env (handle p r0) w) as [[answer0 t] w'] eqn:Er.
    intros [Heq | Hin].
    + injection Heq as -> ->. split.
      * intros b ->. cbn [handle] in Er. rewrite Hcol in Er. cbn in Er.
        now injection Er as <- _ _.
      * intros ->. cbn [handle] in Er. rewrite Hcol in Er. cbn in Er.
        now injection Er as <- _ _.
    + apply (IH p Hcol Hrej w'); [|exact Hin]. intros H. apply N. now right.
Qed.

(** X14: until the connection attempt has succeeded the store is off,
    also in a process that is configured to use it.  Every [/save-route]
    request served before then, or after the attempt failed, is refused
    with 400 'MongoDB not configured' whatever its body, and every
    [/routes] request is answered with the empty array. *)
Theorem store_off_until_connected (uri db : option jsstring)
  (ins : list input) (w : W) (r : request) (answer : result response) :
  ~ In ConnectResolved ins ->
  In (r, answer) (serve env (startup uri db) ins w) ->
  (forall b, r = PostSaveRoute b ->
             answer = Ok (error_response 400 (js "MongoDB not configured")))
  /\ (r = GetRoutes -> answer = Ok {| status := 200; body := VArr [] |}).
Proof. apply serve_unconnected. reflexivity. Qed.

End Store.

(* ================================================================== *)
(** ** [POST /save-route] and [GET /routes] with a store *)
(* ================================================================== *)

Section Saving.

Context {W : Type} (env : environment W).

Lemma destructure_object (fields : list (jsstring * value)) (key : jsstring) :
  destructure (VObj fields) key = Ok (field key fields).
Proof. reflexivity. Qed.

(** X15: what [/save-route] stores.  With a store handle and a body
    object whose [geo] is truthy, the handler reads the clock once and
    inserts one document: the [name] of the body, or 'Unnamed' when that
    is missing or falsy, the [geo] as it came, and the time read.  It
    answers 200 with the identifier that the store returned, and
    500 'Save failed' when the insertion is rejected, whatever the
    reason. *)
Theorem save_route_inserts (w : W) (c : collection)
  (fields : list (jsstring * value)) :
  truthy (field (js "geo") fields) = true ->
  let createdAt := fst (env _ Now w) in
  let doc := route_document (field (js "name") fields)
               (field (js "geo") fields) createdAt in
  let inserted := fst (env _ (InsertOne c doc) (snd (env _ Now w))) in
  trace env (save_route_handler (Some c) (VObj fields)) w
  = [Event Now createdAt; Event (InsertOne c doc) inserted]
  /\ outcome env (save_route_handler (Some c) (VObj fields)) w
     = Ok (match inserted with
           | Ok insertedId =>
               {| status := 200;
                  body := VObj [(js "ok", VBool true);
                                (js "id", insertedId);
                                (js "message", VStr (js "Saved"))] |}
           | Throw _ => error_response 500 (js "Save failed")
           end).
Proof.
  intros G. cbv zeta.
  unfold outcome, trace, save_route_handler.
  rewrite !destructure_object. cbn [lift iobind pbind]. rewrite G.
  cbn [negb try_catch pbind run].
  destruct (env _ Now w) as [createdAt w1]. cbn [fst snd].
  fold (route_document (field (js "name") fields) (field (js "geo") fields)
          createdAt).
  cbn [iobind pbind run].
  destruct (env _ (InsertOne c _) w1) as [[insertedId | e] w2];
    cbn [ret pbind run fst snd]; split; reflexivity.
Qed.

(** X16: what [/save-route] refuses with a store handle.  A body object
    whose [geo] is missing or falsy is answered 400 'geo required'
    without touching the store.  A body that is [undefined] or [null]
    makes the destructuring throw before the handler's [try] block: the
    TypeError escapes the handler and no response is sent. *)
Theorem save_route_refusals (w : W) (c : collection) :
  (forall fields,
     truthy (field (js "geo") fields) = false ->
     run env (save_route_handler (Some c) (VObj fields)) w
     = (Ok (error_response 400 (js "geo required")), [], w))
  /\ (forall b, b = VUndefined \/ b = VNull ->
        exists msg,
          run env (save_route_handler (Some c) b) w
          = (Throw (TypeError msg), [], w)).
Proof.
  split.
  - intros fields G. unfold save_route_handler.
    rewrite !destructure_object. cbn [lift iobind pbind]. rewrite G.
    reflexivity.
  - intros b [-> | ->]; eexists; reflexivity.
Qed.

(** X17: [/routes] with a store handle asks the store once, for at most
    50 documents by descending [createdAt], and answers 200 with exactly
    the documents returned, in the order of the store.  The query is not
    guarded: when the store rejects it the exception escapes the
    handler. *)
Theorem routes_with_store (w : W) (c : collection) :
  let query := FindToArray c (js "createdAt") (-1) 50 in
  trace env (routes_handler (Some c)) w
  = [Event query (fst (env _ query w))]
  /\ outcome env (routes_handler (Some c)) w
     = match fst (env _ query w) with
       | Ok list => Ok {| status := 200; body := VArr list |}
       | Throw e => Throw e
       end.
Proof.
  cbv zeta. unfold outcome, trace, routes_handler. cbn [iobind pbind run].
  destruct (env _ _ w) as [[list | e] w1]; split; reflexivity.
Qed.

End Saving.

(* ================================================================== *)
(** ** The text sent to the geocoding service *)
(* ================================================================== *)

Section Escaping.

Local Open Scope N_scope.

Lemma hex_digit_unreserved (d : N) : d < 16 -> unreserved (hex_digit d) = true.
Proof.
  intros H.
  assert (E : In d [0;1;2;3;4;5;6;7;8;9;10;11;12;13;14;15]).
  { cbn. lia. }
  cbn in E.
  repeat (destruct E as [<- | E]; [reflexivity|]). destruct E.
Qed.

Lemma percent_safe (byte : N) : byte < 256 -> Forall url_safe (percent byte).
Proof.
  intros H. unfold percent.
  assert (byte / 16 < 16) by (apply N.Div0.div_lt_upper_bound; lia).
  assert (byte mod 16 < 16) by (apply N.mod_lt; lia).
  apply Forall_cons; [now right|].
  apply Forall_cons; [left; now apply hex_digit_unreserved|].
  apply Forall_cons; [left; now apply hex_digit_unreserved|].
  apply Forall_nil.
Qed.

Lemma utf8_bytes (cp : N) : cp < 1114112 -> Forall (fun b => b < 256) (utf8 cp).
Proof.
  intros H. unfold utf8.
  assert (M : forall a, a mod 64 < 64) by (intros a; apply N.mod_lt; lia).
  destruct (cp <? 128) eqn:E1; [apply N.ltb_lt in E1; repeat constructor; lia|].
  destruct (cp <? 2048) eqn:E2.
  { apply N.ltb_lt in E2.
    assert (cp / 64 < 32) by (apply N.Div0.div_lt_upper_bound; lia).
    pose proof (M cp). repeat constructor; lia. }
  destruct (cp <? 65536) eqn:E3.
  { apply N.ltb_lt in E3.
    assert (cp / 4096 < 16) by (apply N.Div0.div_lt_upper_bound; lia).
    pose proof (M cp). pose proof (M (cp / 64)). repeat constructor; lia. }
  assert (cp / 262144 < 5) by (apply N.Div0.div_lt_upper_bound; lia).
  pose proof (M cp). pose proof (M (cp / 64)). pose proof (M (cp / 4096)).
  repeat constructor; lia.
Qed.

Lemma escape_safe (cp : N) : cp < 1114112 -> Forall url_safe (escape cp).
Proof.
  intros H. unfold escape. pose proof (utf8_bytes cp H) as B.
  induction B as [|b l Hb _ IH]; [constructor|].
  cbn [flat_map]. apply Forall_app. split; [now apply percent_safe | exact IH].
Qed.

Lemma low_surrogate_reserved (c : code_unit) :
  is_low_surrogate c = true -> unreserved c = false.
Proof.
  unfold is_low_surrogate. intros H. apply andb_true_iff in H.
  destruct H as [H _]. apply N.leb_le in H.
  unfold unreserved, is_digit.
  change (js "-_.!~*'()") with [45; 95; 46; 33; 126; 42; 39; 40; 41].
  cbn [existsb].
  replace (c <=? 90) with false by (symmetry; apply N.leb_gt; lia).
  replace (c <=? 122) with false by (symmetry; apply N.leb_gt; lia).
  replace (c <=? 57) with false by (symmetry; apply N.leb_gt; lia).
  repeat match goal with
         | |- context [N.eqb c ?k] =>
             replace (N.eqb c k) with false by (symmetry; apply N.eqb_neq; lia)
         end.
  now rewrite !andb_false_r.
Qed.

Lemma encodeURIComponent_safe_upto (n : nat) (s r : jsstring) :
  (List.length s <= n)%nat ->
  Forall utf16 s -> encodeURIComponent s = Ok r -> Forall url_safe r.
Proof.
  revert s r. induction n as [|n IH]; intros s r L U.
  - destruct s; [|cbn in L; lia]. intros [= <-]. constructor.
  - destruct s as [|c s']; [intros [= <-]; constructor|].
    cbn [List.length] in L. inversion U as [|? ? Uc U']; subst.
    cbn [encodeURIComponent].
    destruct (unreserved c) eqn:Ec.
    { destruct (encodeURIComponent s') as [r'|] eqn:E'; [|discriminate].
      intros [= <-]. constructor; [now left|].
      apply (IH s' r'); auto. lia. }
    destruct (is_low_surrogate c); [discriminate|].
    destruct (is_high_surrogate c) eqn:Eh.
    + destruct s' as [|d s'']; [discriminate|].
      destruct (is_low_surrogate d) eqn:Ed; [|discriminate].
      destruct (encodeURIComponent s'') as [r'|] eqn:E'; [|discriminate].
      intros [= <-]. inversion U' as [|? ? Ud U'']; subst.
      apply Forall_app. split.
      * apply escape_safe. unfold is_high_surrogate in Eh.
        unfold is_low_surrogate in Ed.
        apply andb_true_iff in Eh, Ed.
        destruct Eh as [H1 H2], Ed as [H3 H4].
        apply N.leb_le in H1, H2, H3, H4. lia.
      * apply (IH s'' r'); auto. cbn [List.length] in L. lia.
    + destruct (encodeURIComponent s') as [r'|] eqn:E'; [|discriminate].
      intros [= <-]. apply Forall_app. split.
      * apply escape_safe. unfold utf16 in Uc. lia.
      * apply (IH s' r'); auto. lia.
Qed.

Lemma encodeURIComponent_total_upto (n : nat) (s : jsstring) :
  (List.length s <= n)%nat ->
  Forall (fun c => ~ surrogate c) s ->
  exists r, encodeURIComponent s = Ok r.
Proof.
  revert s. induction n as [|n IH]; intros s L U.
  - destruct s; [|cbn in L; lia]. now exists [].
  - destruct s as [|c s']; [now exists []|].
    cbn [List.length] in L. inversion U as [|? ? Uc U']; subst.
    destruct (IH s') as [r' E']; auto; [lia|].
    cbn [encodeURIComponent]. rewrite E'. cbn [bind].
    destruct (unreserved c); [eexists; reflexivity|].
    destruct (is_low_surrogate c) eqn:El; [elim Uc; now right|].
    destruct (is_high_surrogate c) eqn:Eh; [elim Uc; now left|].
    eexists; reflexivity.
Qed.

End Escaping.

Section GeocodingRequest.

Context {W : Type} (env : environment W).

(** X18: the place name can not change the shape of the geocoding
    request.  Whenever the URL is built, it is the address of the service
    followed by [?q=], the escaped name and the fixed parameters, and the
    escaped name consists of unreserved characters and percent signs
    only: no [&], [=], [#], [?], [/] or space of the name reaches the URL
    unescaped. *)
Theorem geocode_url_shape (q url : jsstring) :
  Forall utf16 q ->
  geocode_url (VStr q) = Ok url ->
  exists escaped,
    url = NOMINATIM_BASE ++ js "?q=" ++ escaped
          ++ js "&format=json&limit=1&addressdetails=1"
    /\ Forall url_safe escaped
    /\ forall c, In c (js "&=#?/ ") -> ~ In c escaped.
Proof.
  intros U. unfold geocode_url. cbn [to_string bind].
  destruct (encodeURIComponent q) as [escaped | e] eqn:E; [|discriminate].
  cbn [bind]. intros [= <-]. exists escaped. split; [reflexivity|].
  pose proof (encodeURIComponent_safe_upto _ q escaped (le_n _) U E) as S.
  split; [exact S|].
  intros c Hc Hin. rewrite Forall_forall in S. specialize (S c Hin).
  change (js "&=#?/ ") with [38; 61; 35; 63; 47; 32]%N in Hc.
  cbn in Hc.
  destruct S as [S | ->].
  - repeat (destruct Hc as [<- | Hc]; [discriminate S|]). destruct Hc.
  - repeat (destruct Hc as [Hc | Hc]; [discriminate Hc|]). destruct Hc.
Qed.

(** X19: a place name without surrogate code units always reaches the
    geocoding service: the client makes exactly one request, with the
    client identifier, to the URL of the name.  A name that starts with
    an unpaired low surrogate is never sent: escaping it throws, and the
    client fails with [URI malformed] without any request. *)
Theorem geocodePlace_requests (w : W) (q : jsstring) :
  (Forall (fun c => ~ surrogate c) q ->
   exists url e,
     geocode_url (VStr q) = Ok url
     /\ trace env (geocodePlace (VStr q)) w = [e]
     /\ request_of e = Some (url, Some USER_AGENT))
  /\ (forall c rest,
        q = c :: rest -> is_low_surrogate c = true ->
        run env (geocodePlace (VStr q)) w
        = (Throw (geocoding_failed q (js "URI malformed")), [], w)).
Proof.
  split.
  - intros S.
    destruct (encodeURIComponent_total_upto _ q (le_n _) S) as [r E].
    pose proof (geocodePlace_shape (VStr q)) as G.
    unfold geocode_url in *. cbn [to_string bind] in *. rewrite E in *.
    cbn [bind] in *. eexists _, _. split; [reflexivity|].
    rewrite (trace_calls_once env _ _ w G). split; reflexivity.
  - intros c rest -> L. unfold geocodePlace, geocode_url.
    cbn [to_string bind encodeURIComponent].
    rewrite (low_surrogate_reserved c L), L. reflexivity.
Qed.

End GeocodingRequest.

(* ================================================================== *)
(** ** The text of a coordinate pair *)
(* ================================================================== *)

Section CoordinateText.

Lemma trimStart_white (l : jsstring) : Forall white_space l -> trimStart l = [].
Proof.
  intros H. rewrite <- (app_nil_r l). now rewrite trimStart_skip.
Qed.

Lemma trimStart_app_white (s r : jsstring) :
  Forall white_space r ->
  exists r', Forall white_space r' /\ trimStart (s ++ r) = trimStart s ++ r'.
Proof.
  intros H. induction s as [|c s IH].
  - exists []. split; [constructor|]. cbn [app]. now apply trimStart_white.
  - cbn [app trimStart]. destruct (is_white_space c); [exact IH|].
    exists r. split; [exact H | reflexivity].
Qed.

Lemma trim_surrounding (l s r : jsstring) :
  Forall white_space l -> Forall white_space r ->
  trim (l ++ s ++ r) = trim s.
Proof.
  intros Hl Hr. unfold trim. rewrite (trimStart_skip _ _ Hl).
  destruct (trimStart_app_white s r Hr) as (r' & Hr' & ->).
  now apply trimEnd_skip.
Qed.

Lemma coordinate_number_text {t : jsstring} :
  coordinate_number t ->
  Forall (fun c => digit c \/ c = 45%N \/ c = 46%N) t.
Proof.
  intros (sign & ip & point & fp & -> & Hs & _ & Hi & Hp & Hf).
  repeat (apply Forall_app; split).
  - destruct Hs as [-> | ->];
      [constructor | apply Forall_cons; [right; now left | constructor]].
  - eapply Forall_impl; [|exact Hi]. intros c H. now left.
  - destruct Hp as [-> | ->];
      [constructor | apply Forall_cons; [right; now right | constructor]].
  - eapply Forall_impl; [|exact Hf]. intros c H. now left.
Qed.

Lemma no_comma_count (t : jsstring) :
  Forall (fun c => digit c \/ c = 45%N \/ c = 46%N) t ->
  count_occ N.eq_dec t 44%N = 0%nat.
Proof.
  intros H. apply count_occ_not_In. intros Hin.
  rewrite Forall_forall in H. destruct (H _ Hin) as [D | [E | E]];
    try discriminate E.
  vm_compute in D. discriminate D.
Qed.

(** X20: white space around a coordinate pair is ignored.  Adding white
    space before and after a text does not change the verdict of the
    classifier, and when the verdict is [true] it changes neither the
    parsed pair nor the coordinate string that [/route] passes on. *)
Theorem surrounding_space_ignored (l s r : jsstring) :
  Forall white_space l -> Forall white_space r ->
  isCoordinates (VStr (l ++ s ++ r)) = isCoordinates (VStr s)
  /\ (isCoordinates (VStr s) = Ok true ->
      parseCoordinates (VStr (l ++ s ++ r)) = parseCoordinates (VStr s)
      /\ resolve (VStr (l ++ s ++ r)) = resolve (VStr s)).
Proof.
  intros Hl Hr. pose proof (trim_surrounding l s r Hl Hr) as T.
  split.
  - cbn [isCoordinates]. now rewrite T.
  - intros H. apply isCoordinates_true in H.
    destruct H as (a & b & Ht & Ha & Hb).
    assert (Ht' : trim (l ++ s ++ r) = a ++ js "," ++ b) by now rewrite T.
    split.
    + rewrite !parseCoordinates_parts.
      now rewrite (accepted_parts Ht Ha Hb), (accepted_parts Ht' Ha Hb).
    + now rewrite (resolve_coordinates _ _ _ Ht Ha Hb),
        (resolve_coordinates _ _ _ Ht' Ha Hb).
Qed.

(** X21: what an accepted text is made of.  A text that the classifier
    accepts consists, once trimmed, of digits, minus signs, points and
    exactly one comma: no letter, no plus sign, no exponent and no space
    inside. *)
Theorem accepted_characters (s : jsstring) :
  isCoordinates (VStr s) = Ok true ->
  Forall coordinate_char (trim s)
  /\ count_occ N.eq_dec (trim s) 44%N = 1%nat.
Proof.
  intros H. apply isCoordinates_true in H.
  destruct H as (a & b & -> & Ha & Hb).
  apply coordinate_number_text in Ha, Hb.
  change (js ",") with [44%N]. split.
  - apply Forall_app. split; [|apply Forall_cons].
    + eapply Forall_impl; [|exact Ha]. unfold coordinate_char. tauto.
    + unfold coordinate_char. tauto.
    + eapply Forall_impl; [|exact Hb]. unfold coordinate_char. tauto.
  - rewrite count_occ_app. transitivity (0 + 1)%nat; [|reflexivity].
    apply (f_equal2 Nat.add); [exact (no_comma_count a Ha)|].
    change ([44%N] ++ b) with (44%N :: b).
    rewrite count_occ_cons_eq by reflexivity.
    apply f_equal. exact (no_comma_count b Hb).
Qed.

End CoordinateText.

(* ================================================================== *)
(** ** The earlier variant of [/route] *)
(* ================================================================== *)

Section EarlierVariant.

Context {W : Type} (env : environment W).

Lemma lon_lat_nonempty (x y : number) : lon_lat x y <> [].
Proof. unfold lon_lat. destruct (Num.toString x); discriminate. Qed.

Lemma resolve_nonempty (input : value) (w : W) (sc : jsstring) :
  outcome env (resolve input) w = Ok sc -> sc <> [].
Proof.
  unfold resolve.
  destruct (isCoordinates input) as [[|] | e]; cbn [lift iobind pbind].
  - destruct (parseCoordinates input) as [c | e]; cbn [lift iobind pbind].
    + intros [= <-]. apply lon_lat_nonempty.
    + discriminate.
  - change (pbind (geocodePlace input) _)
      with (iobind (geocodePlace input)
              (fun geocoded => ret (lon_lat (g_lon geocoded) (g_lat geocoded)))).
    rewrite outcome_iobind.
    destruct (outcome env (geocodePlace input) w); [|discriminate].
    intros [= <-]. apply lon_lat_nonempty.
  - discriminate.
Qed.

(** The earlier handler on two non-empty texts, next to the routing step
    of the later one. *)
Lemma legacy_run (s e : jsstring) (w : W) :
  s <> [] -> e <> [] ->
  trace env (Legacy.route_handler (VStr s) (VStr e)) w
  = trace env (request_route s e) w
  /\ state_after env (Legacy.route_handler (VStr s) (VStr e)) w
     = state_after env (request_route s e) w
  /\ match outcome env (request_route s e) w with
     | Ok r =>
         exists r',
           outcome env (Legacy.route_handler (VStr s) (VStr e)) w = Ok r'
           /\ status r' = status r
           /\ (status r <> 200%Z -> r' = r)
           /\ (status r = 200%Z ->
               exists distance duration geometry,
                 body r' = VObj [(js "distance_meters", distance);
                                 (js "duration_seconds", duration);
                                 (js "geometry", geometry)]
                 /\ body r = VObj [(js "distance_meters", distance);
                                   (js "duration_seconds", duration);
                                   (js "geometry", geometry);
                                   (js "start_coords", VStr s);
                                   (js "end_coords", VStr e)])
     | Throw _ =>
         outcome env (Legacy.route_handler (VStr s) (VStr e)) w
         = Ok (error_response 500 (js "Server error"))
     end.
Proof.
  intros Hs He.
  destruct s as [|c s]; [contradiction|]. destruct e as [|d e]; [contradiction|].
  unfold outcome, trace, state_after, Legacy.route_handler, request_route, fetch.
  cbn [truthy negb orb to_string lift iobind pbind try_catch run].
  destruct (env _ _ w) as [[err | ok json] w1];
    cbn [throw ret pbind run fst snd];
    [repeat split; reflexivity|].
  destruct ok; cbn [negb ret pbind run fst snd].
  2:{ repeat split; try reflexivity. eexists.
      repeat split; try reflexivity. discriminate. }
  unfold lift, ret. cbn [iobind pbind].
  repeat match goal with
    | |- context [match ?x with Ok _ => _ | Throw _ => _ end] =>
        lazymatch x with
        | context [run] => fail
        | _ => destruct x; cbn [pbind run fst snd]
        end
    | |- context [if ?b then _ else _] => destruct b; cbn [pbind run fst snd]
    end;
    repeat split; try reflexivity;
    try (eexists; repeat split; try reflexivity; try discriminate;
         try (intros H; now elim H);
         intros _; do 3 eexists; split; reflexivity).
Qed.

(** X22: the earlier [/route] checks nothing but the presence of its
    parameters.  Two non-empty texts, whatever they contain, are placed
    unchanged in one request to the routing service; no geocoding request
    is made.  The handler always answers: 200, 502 or 404 as the routing
    service decides, and 500 with the fixed message 'Server error' for
    every exception. *)
Theorem legacy_route_forwards (w : W) (s e : jsstring) :
  s <> [] -> e <> [] ->
  (exists ev,
     trace env (Legacy.route_handler (VStr s) (VStr e)) w = [ev]
     /\ request_of ev = Some (route_url s e, None))
  /\ exists r,
       outcome env (Legacy.route_handler (VStr s) (VStr e)) w = Ok r
       /\ (status r = 200%Z
           \/ r = error_response 502 (js "Routing service error")
           \/ r = error_response 404 (js "No route found")
           \/ r = error_response 500 (js "Server error")).
Proof.
  intros Hs He. destruct (legacy_run s e w Hs He) as (T & _ & O). split.
  - rewrite T.
    rewrite (trace_calls_once env _ _ w (request_route_shape s e)).
    eexists. split; reflexivity.
  - destruct (outcome env (request_route s e) w) as [r | err] eqn:R.
    + destruct O as (r' & -> & S & Same & _). exists r'. split; [reflexivity|].
      destruct (request_route_statuses env w s e r R) as [-> | [-> | S200]].
      * right. left. now apply Same.
      * right. right. left. now apply Same.
      * left. now rewrite S.
    + rewrite O. eexists. split; [reflexivity|]. now do 3 right.
Qed.

(** X23: the later [/route] is the earlier one behind the resolution of
    its parameters.  When both parameters resolve, the later handler
    makes the calls of the two resolutions and then exactly the calls of
    the earlier handler on the two resolved coordinate strings, and the
    two answer with the same status: identical 404 and 502 responses, and
    for 200 the same distance, duration and geometry, to which the later
    handler adds the two coordinate strings. *)
Theorem route_extends_legacy (w : W) (start end_ : value) (sc ec : jsstring) :
  truthy start = true -> truthy end_ = true ->
  outcome env (resolve start) w = Ok sc ->
  outcome env (resolve end_) (state_after env (resolve start) w) = Ok ec ->
  let w1 := state_after env (resolve start) w in
  let w2 := state_after env (resolve end_) w1 in
  trace env (route_handler start end_) w
  = trace env (resolve start) w ++ trace env (resolve end_) w1
    ++ trace env (Legacy.route_handler (VStr sc) (VStr ec)) w2
  /\ exists r r',
       outcome env (route_handler start end_) w = Ok r
       /\ outcome env (Legacy.route_handler (VStr sc) (VStr ec)) w2 = Ok r'
       /\ status r = status r'
       /\ (status r = 404%Z \/ status r = 502%Z -> r = r')
       /\ (status r = 200%Z ->
           exists distance duration geometry,
             body r' = VObj [(js "distance_meters", distance);
                             (js "duration_seconds", duration);
                             (js "geometry", geometry)]
             /\ body r = VObj [(js "distance_meters", distance);
                               (js "duration_seconds", duration);
                               (js "geometry", geometry);
                               (js "start_coords", VStr sc);
                               (js "end_coords", VStr ec)]).
Proof.
  intros Hs He Hsc Hec. cbv zeta.
  pose proof (resolve_nonempty _ _ _ Hsc) as Nsc.
  pose proof (resolve_nonempty _ _ _ Hec) as Nec.
  destruct (legacy_run sc ec
              (state_after env (resolve end_)
                 (state_after env (resolve start) w)) Nsc Nec)
    as (T & _ & O).
  split.
  - rewrite (route_handler_trace env _ _ w Hs He), Hsc. cbv zeta.
    now rewrite Hec, T.
  - rewrite (route_handler_outcome env _ _ w Hs He), Hsc. cbv zeta.
    rewrite Hec.
    destruct (outcome env (request_route sc ec) _) as [r | err].
    + destruct O as (r' & -> & S & Same & Body).
      exists r, r'. repeat split; auto.
      intros [H | H]; symmetry; apply Same; rewrite H; discriminate.
    + rewrite O. eexists _, _. repeat split; try reflexivity.
      * intros [H | H]; discriminate H.
      * intros H; discriminate H.
Qed.

End EarlierVariant.

(* ================================================================== *)
(** ** The further properties at concrete inputs *)
(* ================================================================== *)

Lemma friendly_stateless : stateless friendly.
Proof. intros X c [] []. reflexivity. Qed.

Lemma Forall_checked {A} (P : A -> Prop) (p : A -> bool) (l : list A) :
  (forall x, p x = true -> P x) -> forallb p l = true -> Forall P l.
Proof.
  intros H F. apply Forall_forall. intros x Hx. apply H.
  now apply (proj1 (forallb_forall p l) F).
Qed.

Lemma geocodePlace_failures_witness :
  outcome unavailable (geocodePlace (VStr (js "Paris"))) tt
  = Throw (geocoding_failed (js "Paris") (js "Geocoding service error")).
Proof.
  destruct (@geocodePlace_failures unit unavailable tt (js "Paris")
              (js "https://nominatim.openstreetmap.org/search?q=Paris&format=json&limit=1&addressdetails=1"))
    as (_ & H & _).
  - vm_compute. reflexivity.
  - apply (H (Throw (Error (js "unused")))). reflexivity.
Defined.

Lemma geocodePlace_first_result_witness :
  outcome friendly (geocodePlace (VStr (js "Paris"))) tt
  = Ok {| g_lat := Num.parseFloat (js "48.8566");
          g_lon := Num.parseFloat (js "2.3522");
          g_display_name := VStr (js "Paris") |}.
Proof.
  apply (@geocodePlace_first_result unit friendly tt (js "Paris")
           (js "https://nominatim.openstreetmap.org/search?q=Paris&format=json&limit=1&addressdetails=1")
           (js "48.8566") (js "2.3522")
           [(js "lat", VStr (js "48.8566")); (js "lon", VStr (js "2.3522"));
            (js "display_name", VStr (js "Paris"))]
           [VObj [(js "lat", VStr (js "33.66")); (js "lon", VStr (js "-95.55"));
                  (js "display_name", VStr (js "Paris, Texas"))]]);
    vm_compute; reflexivity.
Defined.

Lemma geocoded_numbers_unchecked_witness :
  outcome incomplete (resolve (VStr (js "Atlantis"))) tt = Ok (js "NaN,NaN").
Proof.
  apply (@geocoded_numbers_unchecked unit incomplete tt (js "Atlantis")
           (js "https://nominatim.openstreetmap.org/search?q=Atlantis&format=json&limit=1&addressdetails=1")
           [(js "display_name", VStr (js "Atlantis"))] []);
    vm_compute; reflexivity.
Defined.

Lemma route_stops_at_first_failure_witness :
  outcome unavailable (route_handler (VStr (js "Paris")) (VStr (js "Rome"))) tt
  = Ok (error_response 500
          (message_or_default
             (geocoding_failed (js "Paris") (js "Geocoding service error"))))
  /\ trace unavailable (route_handler (VStr (js "Paris")) (VStr (js "Rome"))) tt
     = trace unavailable (resolve (VStr (js "Paris"))) tt.
Proof.
  apply (@route_stops_at_first_failure unit unavailable tt
           (VStr (js "Paris")) (VStr (js "Rome"))
           (geocoding_failed (js "Paris") (js "Geocoding service error")));
    vm_compute; reflexivity.
Defined.

Lemma route_resolves_to_geocode_answer_witness :
  exists la lo name,
    VObj [(js "lat", VNum (Num.parseFloat (js "48.8566")));
          (js "lon", VNum (Num.parseFloat (js "2.3522")));
          (js "display_name", VStr (js "Paris"))]
    = VObj [(js "lat", VNum la); (js "lon", VNum lo);
            (js "display_name", name)]
    /\ outcome friendly (resolve (VStr (js "Paris"))) tt = Ok (lon_lat lo la).
Proof.
  apply (@route_resolves_to_geocode_answer unit friendly tt tt
           (VStr (js "Paris"))
           {| status := 200;
              body := VObj [(js "lat", VNum (Num.parseFloat (js "48.8566")));
                            (js "lon", VNum (Num.parseFloat (js "2.3522")));
                            (js "display_name", VStr (js "Paris"))] |}).
  - exact friendly_stateless.
  - vm_compute. reflexivity.
  - vm_compute. reflexivity.
  - reflexivity.
Defined.

Lemma route_first_route_only_witness :
  outcome friendly
    (route_handler (VStr (js "40.0,-73.0")) (VStr (js "41.0,-74.0"))) tt
  = Ok {| status := 200;
          body := VObj [(js "distance_meters", VNum (Num.of_Z 1234));
                        (js "duration_seconds", VNum (Num.of_Z 60));
                        (js "geometry", VNull);
                        (js "start_coords", VStr (js "-73,40"));
                        (js "end_coords", VStr (js "-74,41"))] |}.
Proof.
  apply (@route_first_route_only unit friendly tt
           (VStr (js "40.0,-73.0")) (VStr (js "41.0,-74.0"))
           (js "-73,40") (js "-74,41")
           [(js "code", VStr (js "Ok"));
            (js "routes",
             VArr [VObj [(js "distance", VNum (Num.of_Z 1234));
                         (js "duration", VNum (Num.of_Z 60));
                         (js "geometry", VNull)]])]
           [(js "distance", VNum (Num.of_Z 1234));
            (js "duration", VNum (Num.of_Z 60));
            (js "geometry", VNull)] []);
    vm_compute; reflexivity.
Defined.

Lemma route_without_routes_witness :
  outcome incomplete
    (route_handler (VStr (js "40.0,-73.0")) (VStr (js "41.0,-74.0"))) tt
  = Ok (error_response 404 (js "No route found")).
Proof.
  refine (proj1 (@route_without_routes unit incomplete tt
                   (VStr (js "40.0,-73.0")) (VStr (js "41.0,-74.0"))
                   (js "-73,40") (js "-74,41") _ _ _ _)
            [(js "code", VStr (js "NoRoute"))] _ _).
  - reflexivity.
  - reflexivity.
  - vm_compute. reflexivity.
  - vm_compute. reflexivity.
  - reflexivity.
  - now left.
Defined.

Lemma geocode_errors_name_query_witness :
  exists inner,
    error_response 400
      (message (geocoding_failed (js "Paris") (js "Geocoding service error")))
    = error_response 400
        (js "Geocoding failed for " ++ quoted (js "Paris") ++ js ": " ++ inner).
Proof.
  apply (@geocode_errors_name_query unit unavailable tt (js "Paris")).
  - discriminate.
  - vm_compute. reflexivity.
  - discriminate.
Defined.

Lemma store_off_until_connected_witness :
  match serve friendly (startup (Some (js "mongodb://localhost")) None)
          [Request (PostSaveRoute (VObj [(js "geo", VObj [])]));
           ConnectRejected; Request GetRoutes] tt with
  | [(PostSaveRoute _, saved); (GetRoutes, listed)] =>
      saved = Ok (error_response 400 (js "MongoDB not configured"))
      /\ listed = Ok {| status := 200; body := VArr [] |}
  | _ => False
  end.
Proof.
  vm_compute. split; [reflexivity|].
  refine (proj2 (@store_off_until_connected unit friendly
                   (Some (js "mongodb://localhost")) None
                   [Request (PostSaveRoute (VObj [(js "geo", VObj [])]));
                    ConnectRejected; Request GetRoutes] tt GetRoutes _ _ _)
            eq_refl).
  - intros [H | [H | [H | []]]]; discriminate H.
  - vm_compute. right. left. reflexivity.
Defined.

Lemma save_route_inserts_witness :
  trace friendly
    (save_route_handler (Some (routes_of None)) (VObj [(js "geo", VObj [])])) tt
  = [Event Now (VStr (js "2024-01-01T00:00:00.000Z"));
     Event (InsertOne (routes_of None)
              (route_document VUndefined (VObj [])
                 (VStr (js "2024-01-01T00:00:00.000Z"))))
       (Ok (VStr (js "65a1")))]
  /\ outcome friendly
       (save_route_handler (Some (routes_of None))
          (VObj [(js "geo", VObj [])])) tt
     = Ok {| status := 200;
             body := VObj [(js "ok", VBool true);
                           (js "id", VStr (js "65a1"));
                           (js "message", VStr (js "Saved"))] |}.
Proof.
  exact (@save_route_inserts unit friendly tt (routes_of None)
           [(js "geo", VObj [])] eq_refl).
Defined.

Lemma geocode_url_shape_witness :
  exists escaped,
    js "https://nominatim.openstreetmap.org/search?q=Paris%20%26%20Rome&format=json&limit=1&addressdetails=1"
    = NOMINATIM_BASE ++ js "?q=" ++ escaped
      ++ js "&format=json&limit=1&addressdetails=1"
    /\ Forall url_safe escaped
    /\ forall c, In c (js "&=#?/ ") -> ~ In c escaped.
Proof.
  apply (geocode_url_shape (js "Paris & Rome")).
  - apply (Forall_checked _ (fun c => c <? 65536)%N);
      [intros c; apply N.ltb_lt | vm_compute; reflexivity].
  - vm_compute. reflexivity.
Defined.

Lemma surrounding_space_ignored_witness :
  isCoordinates (VStr (js " " ++ js "40.0,-73.0" ++ js "  "))
  = isCoordinates (VStr (js "40.0,-73.0"))
  /\ parseCoordinates (VStr (js " " ++ js "40.0,-73.0" ++ js "  "))
     = parseCoordinates (VStr (js "40.0,-73.0"))
  /\ resolve (VStr (js " " ++ js "40.0,-73.0" ++ js "  "))
     = resolve (VStr (js "40.0,-73.0")).
Proof.
  destruct (surrounding_space_ignored (js " ") (js "40.0,-73.0") (js "  "))
    as [H1 H2].
  - apply (Forall_checked _ is_white_space); [trivial | reflexivity].
  - apply (Forall_checked _ is_white_space); [trivial | reflexivity].
  - split; [exact H1|]. apply H2. vm_compute. reflexivity.
Defined.

Lemma accepted_characters_witness :
  Forall coordinate_char (trim (js " 40.0,-73.0 "))
  /\ count_occ N.eq_dec (trim (js " 40.0,-73.0 ")) 44%N = 1%nat.
Proof. apply accepted_characters. vm_compute. reflexivity. Defined.

Lemma legacy_route_forwards_witness :
  (exists ev,
     trace friendly
       (Legacy.route_handler (VStr (js "here")) (VStr (js "over there"))) tt
     = [ev]
     /\ request_of ev = Some (route_url (js "here") (js "over there"), None))
  /\ exists r,
       outcome friendly
         (Legacy.route_handler (VStr (js "here")) (VStr (js "over there"))) tt
       = Ok r
       /\ (status r = 200%Z
           \/ r = error_response 502 (js "Routing service error")
           \/ r = error_response 404 (js "No route found")
           \/ r = error_response 500 (js "Server error")).
Proof. apply legacy_route_forwards; discriminate. Defined.

Lemma route_extends_legacy_witness :
  trace friendly (route_handler (VStr (js "40.0,-73.0")) (VStr (js "Paris"))) tt
  = trace friendly (resolve (VStr (js "40.0,-73.0"))) tt
    ++ trace friendly (resolve (VStr (js "Paris"))) tt
    ++ trace friendly
         (Legacy.route_handler (VStr (js "-73,40"))
            (VStr (js "2.3522,48.8566"))) tt
  /\ exists r r',
       outcome friendly
         (route_handler (VStr (js "40.0,-73.0")) (VStr (js "Paris"))) tt = Ok r
       /\ outcome friendly
            (Legacy.route_handler (VStr (js "-73,40"))
               (VStr (js "2.3522,48.8566"))) tt = Ok r'
       /\ status r = status r'
       /\ (status r = 404%Z \/ status r = 502%Z -> r = r')
       /\ (status r = 200%Z ->
           exists distance duration geometry,
             body r' = VObj [(js "distance_meters", distance);
                             (js "duration_seconds", duration);
                             (js "geometry", geometry)]
             /\ body r = VObj [(js "distance_meters", distance);
                               (js "duration_seconds", duration);
                               (js "geometry", geometry);
                               (js "start_coords", VStr (js "-73,40"));
                               (js "end_coords", VStr (js "2.3522,48.8566"))]).
Proof.
  apply (@route_extends_legacy unit friendly tt
           (VStr (js "40.0,-73.0")) (VStr (js "Paris"))
           (js "-73,40") (js "2.3522,48.8566"));
    vm_compute; reflexivity.
Defined.
